(** * Book-API: the authorization/middleware pipeline and the page transfer

    A shallow embedding of the Go sources of the book-lending REST backend:

    - [internal/repositories/book_repository.go] ([TransferPages]) and
      [internal/services/book_service.go] ([validateTransferRequest]),
      in [Module Transfer];
    - [internal/middleware/ratelimit.go], [jwt_auth.go], [ownership.go],
      [common.go], the role-or-ownership stage ([AllowOwnerOrRole]),
      [utils.WriteSafeError] and [internal/security/jwt.go] ([ParseToken]),
      in [Module Http]; the Go library functions they call, in [Module Go].

    Go's [int] is the 64-bit signed integer, kept as [Z] with the wrap-around
    written where the code increments; a Go [string] is a byte string
    ([String.string]); a Go [error] is [option string] ([None] is [nil]);
    a Go map is a [gmap]. *)

From Stdlib Require Import ZArith String Ascii List Lia SpecFloat.
From stdpp Require Import base option gmap strings list.
Import ListNotations.
Local Open Scope string_scope.
Local Open Scope list_scope.
Local Open Scope Z_scope.

(** Go's [error]: [None] is [nil], [Some msg] an error whose text is [msg]. *)
Abbreviation error := (option string).

(* ================================================================== *)
(** * The transactional page transfer                                   *)
(* ================================================================== *)

Module Transfer.

(** [models.TransferRequest]. *)
Record TransferRequest := {
  FromID : Z;
  ToID : Z;
  Pages : Z
}.

(** [bookService.validateTransferRequest]: the three guards, in order. *)
Definition validateTransferRequest (req : TransferRequest) : error :=
  if FromID req <=? 0 then Some "Sender Book ID is invalid"
  else if ToID req <=? 0 then Some "Receiver Book ID is invalid"
  else if Pages req <? 0 then Some "Pages must be greater or equal to 0"
  else None.

(** ** The backing store

    The table [books] seen through the two statements of [TransferPages]:
    the primary key [id] and the column [pages integer NOT NULL]
    ([db/init/newDB.sql]).  [database/sql] and PostgreSQL are not part of
    the repository; the store below is the usual reading of their
    contract: a transaction works on a private copy of the rows, [Commit]
    installs the copy, [Rollback] drops it, and any call may fail. *)

Inductive dbEvent :=
| EvBegin
| EvExec (delta id : Z)
| EvCommit
| EvRollback.

(** What the driver is made to fail (a simulated backing-store fault):
    [Begin], the [n]-th statement of the transaction, [Commit]. *)
Record Faults := {
  begin_fault : error;
  exec_fault : nat -> error;
  commit_fault : error
}.

Definition no_faults : Faults :=
  {| begin_fault := None; exec_fault := fun _ => None; commit_fault := None |}.

Record Store := {
  st_rows : gmap Z Z;        (* id |-> pages, the committed rows *)
  st_log : list dbEvent      (* calls made on the connection, oldest first *)
}.

(** An open transaction [*sql.Tx]: its private rows and the number of
    statements it has run. *)
Record Tx := {
  tx_rows : gmap Z Z;
  tx_count : nat
}.

Definition int4_min : Z := - 2 ^ 31.
Definition int4_max : Z := 2 ^ 31 - 1.
Definition in_int4 (z : Z) : bool := (int4_min <=? z) && (z <=? int4_max).

Definition logged (e : dbEvent) (st : Store) : Store :=
  {| st_rows := st_rows st; st_log := st_log st ++ [e] |}.

(** [r.DB.Begin()]. *)
Definition Begin (f : Faults) (st : Store) : Store * (Tx + string) :=
  match begin_fault f with
  | Some e => (logged EvBegin st, inr e)
  | None => (logged EvBegin st, inl {| tx_rows := st_rows st; tx_count := 0 |})
  end.

(** [tx.Exec(`UPDATE books SET pages = pages + delta WHERE id = $2`, ...)]:
    [delta] is [- req.Pages] for the first statement and [req.Pages] for
    the second.  A statement that matches no row succeeds and changes
    nothing; a parameter or a result outside [integer] is an error; a
    failed statement changes no row. *)
Definition Exec (f : Faults) (tx : Tx) (delta id : Z) (st : Store)
  : Store * Tx * error :=
  let st' := logged (EvExec delta id) st in
  let bump rows := {| tx_rows := rows; tx_count := S (tx_count tx) |} in
  match exec_fault f (tx_count tx) with
  | Some e => (st', bump (tx_rows tx), Some e)
  | None =>
    if negb (in_int4 delta) then (st', bump (tx_rows tx), Some "integer out of range")
    else
      match tx_rows tx !! id with
      | None => (st', bump (tx_rows tx), None)
      | Some p =>
        if in_int4 (p + delta)
        then (st', bump (<[id := p + delta]> (tx_rows tx)), None)
        else (st', bump (tx_rows tx), Some "integer out of range")
      end
  end.

(** [tx.Commit()]: installs the transaction's rows unless it fails. *)
Definition Commit (f : Faults) (tx : Tx) (st : Store) : Store * error :=
  match commit_fault f with
  | Some e => (logged EvCommit st, Some e)
  | None => ({| st_rows := tx_rows tx; st_log := st_log st ++ [EvCommit] |}, None)
  end.

(** [tx.Rollback()]: the committed rows stay as they were (the result of
    the call is dropped by the caller). *)
Definition Rollback (tx : Tx) (st : Store) : Store := logged EvRollback st.

(** ** [PgBookRepository.TransferPages]

    The function has an unnamed result.  Its body assigns the local [err];
    [return err] copies it into the result; the deferred closure then reads
    the local [err] to choose between [Rollback] and [Commit], and stores
    the result of [Commit] in the local [err] only.  [body] gives the
    transaction, the returned value and the local [err] at the [return].
    No call of the body panics in this store, so the [recover()] branch of
    the closure is not reached. *)
Definition body (f : Faults) (req : TransferRequest) (tx : Tx) (st : Store)
  : Store * Tx * error * error :=
  match Exec f tx (- Pages req) (FromID req) st with
  | (st1, tx1, Some e) => (st1, tx1, Some e, Some e)
  | (st1, tx1, None) =>
    match Exec f tx1 (Pages req) (ToID req) st1 with
    | (st2, tx2, Some e) => (st2, tx2, Some e, Some e)
    | (st2, tx2, None) => (st2, tx2, None, None)
    end
  end.

Definition deferred (f : Faults) (tx : Tx) (err : error) (st : Store) : Store :=
  match err with
  | Some _ => Rollback tx st
  | None => fst (Commit f tx st)      (* err = tx.Commit(): the result is already set *)
  end.

Definition TransferPages (f : Faults) (req : TransferRequest) (st : Store)
  : Store * error :=
  match Begin f st with
  | (st0, inr e) => (st0, Some e)
  | (st0, inl tx) =>
    match body f req tx st0 with
    | (st1, tx1, ret, err) => (deferred f tx1 err st1, ret)
    end
  end.

(** [bookService.TransferPages]: validate, then delegate. *)
Definition Service_TransferPages (f : Faults) (req : TransferRequest) (st : Store)
  : Store * error :=
  match validateTransferRequest req with
  | Some e => (st, Some e)
  | None =>
    match TransferPages f req st with
    | (st', Some e) => (st', Some e)
    | (st', None) => (st', None)
    end
  end.

(** The [pages] field of a book, [0] for an id that has no row. *)
Definition pagesOf (st : Store) (id : Z) : Z := default 0 (st_rows st !! id).

(** The two [UPDATE] calls as [TransferPages] makes them once [Begin] has
    succeeded: the result of the first, and of the second after it. *)
Definition first_update (f : Faults) (req : TransferRequest) (st : Store)
  : Store * Tx * error :=
  Exec f {| tx_rows := st_rows st; tx_count := 0 |}
       (- Pages req) (FromID req) (logged EvBegin st).

Definition second_update (f : Faults) (req : TransferRequest) (st : Store)
  : Store * Tx * error :=
  match first_update f req st with
  | (st1, tx1, _) => Exec f tx1 (Pages req) (ToID req) st1
  end.

(** ** A store to run the transfer on *)

(** A store with two books, a transfer between them, and a driver that
    fails the second statement of a transaction. *)
Definition two_books : Store :=
  {| st_rows := <[1 := 100]> (<[2 := 50]> ∅); st_log := [] |}.

Definition move_30 : TransferRequest := {| FromID := 1; ToID := 2; Pages := 30 |}.

Definition second_fails : Faults :=
  {| begin_fault := None;
     exec_fault := fun n => match n with 1%nat => Some "connection lost" | _ => None end;
     commit_fault := None |}.

Definition commit_fails : Faults :=
  {| begin_fault := None; exec_fault := fun _ => None;
     commit_fault := Some "driver: bad connection" |}.

(** ** What a whole run leaves behind *)

(** The rows after one [UPDATE ... SET pages = pages + delta WHERE id = id]
    that succeeded: a row that exists is changed, a missing one is not
    created. *)
Definition credited (rows : gmap Z Z) (delta id : Z) : gmap Z Z :=
  match rows !! id with
  | Some p => <[id := p + delta]> rows
  | None => rows
  end.

(** The rows after both statements of a transfer. *)
Definition transferred (req : TransferRequest) (rows : gmap Z Z) : gmap Z Z :=
  credited (credited rows (- Pages req) (FromID req)) (Pages req) (ToID req).

Definition is_exec (e : dbEvent) : bool :=
  match e with EvExec _ _ => true | _ => false end.

(** The calls a run of [TransferPages] adds to the log of the connection. *)
Definition calls_of (f : Faults) (req : TransferRequest) (st : Store) : list dbEvent :=
  drop (length (st_log st)) (st_log (fst (TransferPages f req st))).

Definition one_book : Store :=
  {| st_rows := <[1 := 100]> ∅; st_log := [] |}.

Definition to_missing_book : TransferRequest :=
  {| FromID := 1; ToID := 9; Pages := 30 |}.

Definition from_nobody : TransferRequest :=
  {| FromID := 0; ToID := 2; Pages := 30 |}.

End Transfer.

(* ================================================================== *)
(** * Go values, strings and numbers used by the HTTP stages            *)
(* ================================================================== *)

Module Go.

Definition int64_min : Z := - 2 ^ 63.
Definition int64_max : Z := 2 ^ 63 - 1.
Definition in_int64 (z : Z) : bool := (int64_min <=? z) && (z <=? int64_max).

(** Two's-complement wrap-around of Go's [int] arithmetic. *)
Definition wrap64 (z : Z) : Z := (z + 2 ^ 63) mod 2 ^ 64 - 2 ^ 63.

(** A value of type [interface{}], by dynamic type.  A JSON number decoded
    into a claim set is a [float64]. *)
Inductive any :=
| ANil
| AInt (n : Z)
| AFloat64 (f : spec_float)
| AString (s : string)
| ABool (b : bool)
| AError (msg : string).

(** The conversion [int(f)] of a [float64]: truncation toward zero.  Go
    leaves the result open when [f] does not fit; the smallest [int] is what
    amd64 yields. *)
Definition int_of_float64 (f : spec_float) : Z :=
  match f with
  | S754_zero _ => 0
  | S754_finite s m e =>
    let mag := if 0 <=? e then Z.pos m * 2 ^ e else Z.pos m / 2 ^ (- e) in
    let z := if s then - mag else mag in
    if in_int64 z then z else int64_min
  | _ => int64_min
  end.

(** [strings.HasPrefix(s, prefix)]. *)
Fixpoint HasPrefix (s prefix : string) {struct prefix} : bool :=
  match prefix, s with
  | EmptyString, _ => true
  | String a p', String b s' => if Ascii.eqb a b then HasPrefix s' p' else false
  | String _ _, EmptyString => false
  end.

Fixpoint drop_bytes (n : nat) (s : string) : string :=
  match n, s with
  | O, _ => s
  | S n', String _ s' => drop_bytes n' s'
  | S _, EmptyString => EmptyString
  end.

(** [strings.TrimPrefix(s, prefix)]: [s] without the leading [prefix], or
    [s] itself when it does not start with it. *)
Definition TrimPrefix (s prefix : string) : string :=
  if HasPrefix s prefix then drop_bytes (String.length prefix) s else s.

(** [strings.ReplaceAll(s, old, new)] for a non-empty [old]: the leftmost
    non-overlapping occurrences of [old] are replaced.  [skip] counts the
    bytes of a matched occurrence still to be passed over.  (For an empty
    [old] Go inserts [new] around every rune; that case is not used and
    [s] is returned.) *)
Fixpoint replace_from (old new : string) (skip : nat) (s : string) : string :=
  match s with
  | EmptyString => EmptyString
  | String c s' =>
    match skip with
    | S k => replace_from old new k s'
    | O =>
      if HasPrefix s old
      then new +:+ replace_from old new (Nat.pred (String.length old)) s'
      else String c (replace_from old new O s')
    end
  end.

Definition ReplaceAll (s old new : string) : string :=
  match old with
  | EmptyString => s
  | String _ _ => replace_from old new O s
  end.

(** [strconv.Atoi]: an optional sign and decimal digits.  A syntax error
    yields [0]; a value outside [int] yields the nearest bound and a range
    error, found at the digit that overflows [uint64]. *)
Definition digit_of (c : ascii) : option Z :=
  let n := Z.of_N (N_of_ascii c) in
  if (48 <=? n) && (n <=? 57) then Some (n - 48) else None.

Inductive numError := ErrSyntax | ErrRange.

(** [strconv.ParseUint(s, 10, 64)] on the bytes left to read, [n] being
    the value read so far. *)
Fixpoint parse_uint (s : string) (n : Z) : Z * option numError :=
  match s with
  | EmptyString => (n, None)
  | String c s' =>
    match digit_of c with
    | None => (0, Some ErrSyntax)
    | Some d =>
      if 2 ^ 64 / 10 + 1 <=? n then (2 ^ 64 - 1, Some ErrRange)
      else if 2 ^ 64 - 1 <? n * 10 + d then (2 ^ 64 - 1, Some ErrRange)
      else parse_uint s' (n * 10 + d)
    end
  end.

Definition ParseUint (s : string) : Z * option numError :=
  match s with
  | EmptyString => (0, Some ErrSyntax)
  | _ => parse_uint s 0
  end.

Definition numError_text (e : numError) : string :=
  match e with
  | ErrSyntax => "invalid syntax"
  | ErrRange => "value out of range"
  end.

Definition Atoi (s : string) : Z * error :=
  match s with
  | EmptyString => (0, Some (numError_text ErrSyntax))
  | String c rest =>
    let neg := Ascii.eqb c "-" in
    let digits := if Ascii.eqb c "+" || neg then rest else s in
    match ParseUint digits with
    | (_, Some ErrSyntax) => (0, Some (numError_text ErrSyntax))
    | (un, _) =>
      if negb neg && (2 ^ 63 <=? un) then (2 ^ 63 - 1, Some (numError_text ErrRange))
      else if neg && (2 ^ 63 <? un) then (- 2 ^ 63, Some (numError_text ErrRange))
      else (if neg then - un else un, None)
    end
  end.

(** [s] without its bytes equal to [b]. *)
Fixpoint delete_byte (b : ascii) (s : string) : string :=
  match s with
  | EmptyString => EmptyString
  | String c s' => if Ascii.eqb b c then delete_byte b s' else String c (delete_byte b s')
  end.

End Go.

(* ================================================================== *)
(** * The middleware stages                                             *)
(* ================================================================== *)

Module Http.
Import Go.

(** ** Requests *)

(** [type contextKey string]. *)
Record contextKey := CtxKey { key_name : string }.

#[global] Instance contextKey_eq_dec : EqDecision contextKey.
Proof. solve_decision. Defined.

Definition UserIDKey : contextKey := CtxKey "user_id".
Definition UserRoleKey : contextKey := CtxKey "user_role".

(** A [context.Context]: the bindings of [context.WithValue], the newest
    first. *)
Definition Context := list (contextKey * any).

Definition WithValue (ctx : Context) (k : contextKey) (v : any) : Context :=
  (k, v) :: ctx.

(** [ctx.Value(k)]: the newest binding of [k], [nil] when there is none. *)
Fixpoint Value (ctx : Context) (k : contextKey) : any :=
  match ctx with
  | [] => ANil
  | (k', v) :: rest => if decide (k' = k) then v else Value rest k
  end.

(** The parts of [*http.Request] the stages read.  [URLParams] holds the
    route parameters chi matched ([chi.URLParam]). *)
Record Request := {
  Method : string;
  URLPath : string;
  RemoteAddr : string;
  Header : gmap string (list string);
  URLParams : gmap string string;
  Ctx : Context
}.

(** [r.Header.Get(key)] for a key in canonical form: the first value, or
    the empty string. *)
Definition Header_Get (r : Request) (key : string) : string :=
  match Header r !! key with
  | Some (v :: _) => v
  | _ => ""
  end.

(** [chi.URLParam(r, name)]: the empty string for a name without a match. *)
Definition URLParam (r : Request) (name : string) : string :=
  default "" (URLParams r !! name).

(** [r.WithContext(ctx)]. *)
Definition WithContext (r : Request) (ctx : Context) : Request :=
  {| Method := Method r; URLPath := URLPath r; RemoteAddr := RemoteAddr r;
     Header := Header r; URLParams := URLParams r; Ctx := ctx |}.

(** ** The world a handler runs in *)

(** [models.ErrorResponse]. *)
Record ErrorResponse := {
  Error : string;
  Message : string
}.

(** What a handler does that can be observed, in order. *)
Inductive event :=
| EvLog (format : string) (args : list any)      (* log.Printf *)
| EvSetHeader (key value : string)               (* w.Header().Set *)
| EvWriteHeader (statusCode : Z)                 (* w.WriteHeader *)
| EvWriteBody (body : ErrorResponse)             (* json.NewEncoder(w).Encode *)
| EvLoader (resourceID : Z)                      (* a call of the injected OwnerLoader *)
| EvServed (r : Request)                         (* the probe handler ran on r *)
| EvProbe (label : string).                      (* a probe stage passed label *)

(** [rateLimitEntry]; a [time.Time] is its reading in nanoseconds. *)
Record rateLimitEntry := {
  LastSeen : Z;
  Count : Z
}.

(** The trace of events, the package variable [visitors] (each address has
    an entry of its own, so the pointer in the map is the entry), and the
    clock.  [time.Now()] reads [w_clock]; the clock is moved from outside. *)
Record World := {
  w_trace : list event;
  w_visitors : gmap string rateLimitEntry;
  w_clock : Z
}.

Definition add_event (e : event) (w : World) : World :=
  {| w_trace := w_trace w ++ [e]; w_visitors := w_visitors w; w_clock := w_clock w |}.

Definition add_events (es : list event) (w : World) : World :=
  {| w_trace := w_trace w ++ es; w_visitors := w_visitors w; w_clock := w_clock w |}.

Definition set_visitors (v : gmap string rateLimitEntry) (w : World) : World :=
  {| w_trace := w_trace w; w_visitors := v; w_clock := w_clock w |}.

Definition set_clock (t : Z) (w : World) : World :=
  {| w_trace := w_trace w; w_visitors := w_visitors w; w_clock := t |}.

(** A call either returns or panics with a value. *)
Inductive completion (A : Type) :=
| Done (a : A)
| Panicked (v : any).
Arguments Done {A} a.
Arguments Panicked {A} v.

Definition M (A : Type) : Type := World -> World * completion A.

Definition ret {A} (a : A) : M A := fun w => (w, Done a).

Definition bind {A B} (m : M A) (k : A -> M B) : M B :=
  fun w =>
    match m w with
    | (w', Done a) => k a w'
    | (w', Panicked v) => (w', Panicked v)
    end.

Declare Scope go_scope.
Delimit Scope go_scope with go.
Notation "x <- m ;; k" := (bind m (fun x => k))
  (at level 100, m at next level, k at level 200, right associativity) : go_scope.
Notation "m ;; k" := (bind m (fun _ => k))
  (at level 100, k at level 200, right associativity) : go_scope.
Local Open Scope go_scope.

Definition emit (e : event) : M unit := fun w => (add_event e w, Done tt).
Definition panic {A} (v : any) : M A := fun w => (w, Panicked v).

(** [time.Now()] and [time.Since(t)]; a [time.Duration] saturates. *)
Definition Now : M Z := fun w => (w, Done (w_clock w)).

Definition saturate64 (d : Z) : Z := Z.max int64_min (Z.min int64_max d).

Definition Since (t : Z) : M Z := fun w => (w, Done (saturate64 (w_clock w - t))).

(** The type assertions [v.(int)], [v.(float64)], [v.(string)] in their
    one-result form: a value of another dynamic type panics. *)
Definition typeAssertionError : any := AError "interface conversion".

Definition assert_int (v : any) : M Z :=
  match v with AInt n => ret n | _ => panic typeAssertionError end.

Definition assert_float64 (v : any) : M spec_float :=
  match v with AFloat64 f => ret f | _ => panic typeAssertionError end.

Definition assert_string (v : any) : M string :=
  match v with AString s => ret s | _ => panic typeAssertionError end.

(** The two-result forms [v, ok := x.(T)]. *)
Definition as_int (v : any) : Z * bool :=
  match v with AInt n => (n, true) | _ => (0, false) end.

Definition as_string (v : any) : string * bool :=
  match v with AString s => (s, true) | _ => ("", false) end.

(** [http.StatusText] on the codes the stages write. *)
Definition StatusText (code : Z) : string :=
  if code =? 204 then "No Content"
  else if code =? 400 then "Bad Request"
  else if code =? 401 then "Unauthorized"
  else if code =? 403 then "Forbidden"
  else if code =? 429 then "Too Many Requests"
  else if code =? 500 then "Internal Server Error"
  else "".

Definition StatusNoContent : Z := 204.
Definition StatusBadRequest : Z := 400.
Definition StatusUnauthorized : Z := 401.
Definition StatusForbidden : Z := 403.
Definition StatusTooManyRequests : Z := 429.
Definition StatusInternalServerError : Z := 500.

(** [utils.WriteSafeError]. *)
Definition WriteSafeError (statusCode : Z) (message : string) : M unit :=
  let response := {| Error := StatusText statusCode; Message := message |} in
  emit (EvSetHeader "Content-Type" "application/json") ;;
  emit (EvWriteHeader statusCode) ;;
  emit (EvWriteBody response).

(** [http.Handler] / [http.HandlerFunc]: [next.ServeHTTP(w, r)] is [next r]. *)
Definition Handler : Type := Request -> M unit.

(** A terminal handler that only records that it ran, and on which request. *)
Definition probe : Handler := fun r => emit (EvServed r).

(** ** [middleware/ratelimit.go] *)

(** [limitWindow = 1 * time.Minute], in nanoseconds, and [requestCap]. *)
Definition limitWindow : Z := 60 * 1000000000.
Definition requestCap : Z := 60.

(** [RateLimit].  Requests are served one at a time.  The lookup, the
    update of the entry and the two clock reads ([time.Since] and
    [time.Now]) happen under the lock and are one step here, at one
    instant; [entry.Count] is read again after the unlock. *)
Definition RateLimit (next : Handler) : Handler := fun r w =>
  let ip := RemoteAddr r in
  let fresh := {| LastSeen := w_clock w; Count := 1 |} in
  match w_visitors w !! ip with
  | None => next r (set_visitors (<[ip := fresh]> (w_visitors w)) w)
  | Some entry =>
    if limitWindow <? saturate64 (w_clock w - LastSeen entry)
    then next r (set_visitors (<[ip := fresh]> (w_visitors w)) w)
    else
      let entry' := {| LastSeen := w_clock w; Count := wrap64 (Count entry + 1) |} in
      let w' := set_visitors (<[ip := entry']> (w_visitors w)) w in
      if requestCap <? Count entry'
      then WriteSafeError StatusTooManyRequests "Rate limit exceeded" w'
      else next r w'
  end.

(** Requests served one after the other, each at its arrival time. *)
Fixpoint serve (h : Handler) (arrivals : list (Z * Request)) (w : World) : World :=
  match arrivals with
  | [] => w
  | (t, r) :: rest => serve h rest (fst (h r (set_clock t w)))
  end.

(** ** [security/jwt.go] and [middleware/jwt_auth.go] *)

(** [token.Claims]: a [jwt.MapClaims] or a claim set of another type. *)
Inductive Claims :=
| MapClaims (m : gmap string any)
| OtherClaims.

(** The fields of [*jwt.Token] that [ParseToken] reads. *)
Record Token := {
  Valid : bool;
  TokenClaims : Claims
}.

Section WithJWT.

(** [jwt.Parse(tokenStr, keyFunc)] of github.com/golang-jwt/jwt/v5, with
    the key the key function returns: the library checks the signature and
    the expiry.  It is not part of the repository and is taken as given. *)
Variable jwt_Parse : string -> string -> Token * error.

(** [jwt.ErrInvalidKey]. *)
Definition ErrInvalidKey : string := "key is invalid".

(** [ParseToken]; the [nil] claim set is the empty map. *)
Definition ParseToken (tokenStr secret : string) : gmap string any * error :=
  let tokenStr := ReplaceAll tokenStr " " "" in
  match jwt_Parse tokenStr secret with
  | (token, err) =>
    if bool_decide (err <> None) || negb (Valid token) then (∅, err)
    else
      match TokenClaims token with
      | MapClaims claims => (claims, None)
      | OtherClaims => (∅, Some ErrInvalidKey)
      end
  end.

(** [JWTAuth]. *)
Definition JWTAuth (secret : string) (next : Handler) : Handler := fun r =>
  let auth := Header_Get r "Authorization" in
  if bool_decide (auth = "") || negb (HasPrefix auth "Bearer")
  then WriteSafeError StatusUnauthorized "Unauthorized"
  else
    let tokenStr := TrimPrefix auth "Bearer" in
    match ParseToken tokenStr secret with
    | (_, Some _) => WriteSafeError StatusUnauthorized "Invalid or expired token."
    | (claims, None) =>
      match claims !! "user_id" with
      | None => WriteSafeError StatusUnauthorized "Missing user_id in token."
      | Some userIDRaw =>
        match claims !! "user_role" with
        | None => WriteSafeError StatusUnauthorized "Missing user_role in token."
        | Some userRoleRaw =>
          f <- assert_float64 userIDRaw ;;
          let userID := int_of_float64 f in
          userRole <- assert_string userRoleRaw ;;
          let ctx := WithValue (Ctx r) UserIDKey (AInt userID) in
          let ctx := WithValue ctx UserRoleKey (AString userRole) in
          next (WithContext r ctx)
        end
      end
    end.

End WithJWT.

(** ** [middleware/ownership.go] and the role-or-ownership stage *)

(** [OwnerLoader]: the owner recorded for a resource, or an error. *)
Definition OwnerLoader : Type := Request -> Z -> Z * error.

(** A call of the injected loader, recorded in the trace. *)
Definition call_loader (loader : OwnerLoader) (r : Request) (resourceID : Z)
  : M (Z * error) :=
  emit (EvLoader resourceID) ;; ret (loader r resourceID).

(** [EnforceOwnership]. *)
Definition EnforceOwnership (paramName : string) (loader : OwnerLoader)
    (next : Handler) : Handler := fun r =>
  match as_int (Value (Ctx r) UserIDKey) with
  | (_, false) => WriteSafeError StatusUnauthorized "Unauthorized"
  | (userID, true) =>
    let idStr := URLParam r paramName in
    match Atoi idStr with
    | (_, Some _) => WriteSafeError StatusBadRequest "Invalid ID"
    | (resourceID, None) =>
      res <- call_loader loader r resourceID ;;
      match res with
      | (_, Some _) =>
        WriteSafeError StatusInternalServerError "Could not verify ownership"
      | (ownerID, None) =>
        if negb (userID =? ownerID)
        then WriteSafeError StatusForbidden "Forbidden: not owner"
        else next r
      end
    end
  end.

(** The set built by the loop over [allowedRoles]. *)
Definition roleSet (allowedRoles : list string) : gset string :=
  foldl (fun set role => {[ role ]} ∪ set) ∅ allowedRoles.

(** [AllowOwnerOrRole]. *)
Definition AllowOwnerOrRole (paramName : string) (loader : OwnerLoader)
    (roleKey : contextKey) (allowedRoles : list string)
    (next : Handler) : Handler := fun r =>
  let role := fst (as_string (Value (Ctx r) roleKey)) in
  userID <- assert_int (Value (Ctx r) UserIDKey) ;;
  let idStr := URLParam r paramName in
  let resourceID := fst (Atoi idStr) in
  res <- call_loader loader r resourceID ;;
  let ownerID := fst res in
  let isAllowed := bool_decide (role ∈ roleSet allowedRoles) in
  if negb (userID =? ownerID) && negb isAllowed
  then WriteSafeError StatusForbidden "Forbidden"
  else next r.

(** ** [middleware/common.go] *)

Definition newline : string := String (ascii_of_nat 10) EmptyString.

(** [requestLoggingMiddleware]. *)
Definition requestLoggingMiddleware (next : Handler) : Handler := fun r =>
  startTime <- Now ;;
  emit (EvLog "Started HTTP Request %s %s" [AString (Method r); AString (URLPath r)]) ;;
  next r ;;
  durationTime <- Since startTime ;;
  emit (EvLog ("Completed %s %s in %v " +:+ newline +:+ newline)
          [AString (Method r); AString (URLPath r); AInt durationTime]).

(** [recoveryMiddleware]: the deferred [recover()] turns a panic of [next]
    into a log line and a 500 response, and the call returns.  (The value
    of a panic is never [nil]: since Go 1.21 [panic(nil)] carries a
    [*runtime.PanicNilError].) *)
Definition recoveryMiddleware (next : Handler) : Handler := fun r w =>
  match next r w with
  | (w', Panicked err) =>
    (emit (EvLog "Recovered from panic: %v" [err]) ;;
     WriteSafeError StatusInternalServerError "Internal Server Error") w'
  | (w', Done _) => (w', Done tt)
  end.

(** [corsMiddleware]. *)
Definition corsMiddleware (next : Handler) : Handler := fun r =>
  emit (EvSetHeader "Access-Control-Allow-Origin" "*") ;;
  emit (EvSetHeader "Access-Control-Allow-Methods" "GET, POST, PUT, DELETE, OPTIONS") ;;
  emit (EvSetHeader "Access-Control-Allow-Headers" "Content-Type") ;;
  if bool_decide (Method r = "OPTIONS")
  then emit (EvWriteHeader StatusNoContent)
  else next r.

(** [userAgentLogMiddleware]. *)
Definition userAgentLogMiddleware (next : Handler) : Handler := fun r =>
  emit (EvLog "User-Agent: %s" [AString (Header_Get r "User-Agent")]) ;;
  next r.

(** [applyMiddleware]: the loop [for i := len(middlewares) - 1; i >= 0; i--],
    [n] being [i + 1]. *)
Fixpoint applyMiddleware_loop (middlewares : list (Handler -> Handler))
    (n : nat) (h : Handler) : Handler :=
  match n with
  | O => h
  | S i =>
    match middlewares !! i with
    | Some m => applyMiddleware_loop middlewares i (m h)
    | None => h                       (* an index out of range panics; never reached *)
    end
  end.

Definition applyMiddleware (h : Handler) (middlewares : list (Handler -> Handler))
  : Handler :=
  applyMiddleware_loop middlewares (length middlewares) h.

(** [Apply]. *)
Definition Apply (h : Handler) : Handler :=
  applyMiddleware h
    [requestLoggingMiddleware; recoveryMiddleware; corsMiddleware; userAgentLogMiddleware].

(** A stage that only marks its way in and its way out. *)
Definition probeStage (label : string) (next : Handler) : Handler := fun r =>
  emit (EvProbe ("in " +:+ label)) ;;
  next r ;;
  emit (EvProbe ("out " +:+ label)).

(** ** Observation and sample data *)

(** The events a handler adds to the trace when run on [r] in [w]. *)
Definition emitted (h : Handler) (r : Request) (w : World) : list event :=
  drop (length (w_trace w)) (w_trace (fst (h r w))).

(** The three events of [WriteSafeError statusCode message]. *)
Definition rejection (statusCode : Z) (message : string) : list event :=
  [EvSetHeader "Content-Type" "application/json";
   EvWriteHeader statusCode;
   EvWriteBody {| Error := StatusText statusCode; Message := message |}].

Definition in_window (ip : string) (T0 : Z) (a : Z * Request) : Prop :=
  RemoteAddr a.2 = ip /\ T0 <= a.1 <= T0 + limitWindow.

#[global] Instance in_window_dec ip T0 a : Decision (in_window ip T0 a).
Proof. unfold in_window. apply _. Defined.

Definition way_in (labels : list string) : list event :=
  map (fun l => EvProbe ("in " +:+ l)) labels.

Definition way_out (labels : list string) : list event :=
  map (fun l => EvProbe ("out " +:+ l)) (rev labels).

(** A world with nothing in it, a loader that knows one book (book 7,
    owned by user 2), and requests on the route [/books/{id}]. *)
Definition empty_world : World :=
  {| w_trace := []; w_visitors := ∅; w_clock := 0 |}.

Definition book_owner : OwnerLoader := fun _ resourceID =>
  if resourceID =? 7 then (2, None) else (0, Some "sql: no rows in result set").

Definition request_with (ctx : Context) (id : string) : Request :=
  {| Method := "PUT"; URLPath := "/books/" +:+ id; RemoteAddr := "10.0.0.7:4242";
     Header := ∅; URLParams := {[ "id" := id ]}; Ctx := ctx |}.

Definition identity (userID : Z) (role : string) : Context :=
  [(UserRoleKey, AString role); (UserIDKey, AInt userID)].

(** A stand-in for the library that knows two tokens signed with the
    secret "k": "good" carries a numeric user id and a string role, "odd"
    carries a user id that is a string. *)
Definition stub_Parse : string -> string -> Token * error := fun tokenStr secret =>
  if bool_decide (secret = "k") && bool_decide (tokenStr = "good")
  then ({| Valid := true;
           TokenClaims := MapClaims (<["user_id" := AFloat64 (S754_finite false 7 0)]>
                                       {[ "user_role" := AString "user" ]}) |}, None)
  else if bool_decide (secret = "k") && bool_decide (tokenStr = "odd")
  then ({| Valid := true;
           TokenClaims := MapClaims (<["user_id" := AString "seven"]>
                                       {[ "user_role" := AString "user" ]}) |}, None)
  else ({| Valid := false; TokenClaims := OtherClaims |}, Some "token is malformed").

(** Sixty requests of one address, a microsecond after time 0. *)
Definition burst : list (Z * Request) :=
  replicate 60 (1000, request_with [] "7").

Definition bearer_request (authorization : string) : Request :=
  {| Method := "GET"; URLPath := "/books"; RemoteAddr := "10.0.0.7:4242";
     Header := {[ "Authorization" := [authorization] ]}; URLParams := ∅; Ctx := [] |}.

(** ** The rate limiter seen from one address *)

(** What [RateLimit] decides from the entry of the address and the clock:
    the entry it stores and whether the request goes on. *)
Definition decide_entry (old : option rateLimitEntry) (now : Z) : rateLimitEntry * bool :=
  match old with
  | None => ({| LastSeen := now; Count := 1 |}, true)
  | Some entry =>
    if limitWindow <? saturate64 (now - LastSeen entry)
    then ({| LastSeen := now; Count := 1 |}, true)
    else
      let count := wrap64 (Count entry + 1) in
      ({| LastSeen := now; Count := count |}, negb (requestCap <? count))
  end.

(** Requests of the address [ip], each arriving at most a window after the
    one before it; [prev] is the arrival before the first. *)
Fixpoint paced (ip : string) (prev : Z) (arrivals : list (Z * Request)) : Prop :=
  match arrivals with
  | [] => True
  | (t, r) :: rest => RemoteAddr r = ip /\ t - prev <= limitWindow /\ paced ip t rest
  end.

(** The requests the probe handler ran on, in order. *)
Fixpoint served_of (es : list event) : list Request :=
  match es with
  | [] => []
  | EvServed r :: es' => r :: served_of es'
  | _ :: es' => served_of es'
  end.

(** The events that serving [arrivals] adds to the trace. *)
Definition emitted_serving (h : Handler) (arrivals : list (Z * Request)) (w : World)
  : list event :=
  drop (length (w_trace w)) (w_trace (serve h arrivals w)).

(** Three requests of one address, 59 seconds apart. *)
Definition slow_three : list (Z * Request) :=
  [(59000000000, request_with [] "7"); (118000000000, request_with [] "7");
   (177000000000, request_with [] "7")].

(** ** The role policy and the owner lookup of the book routes *)

(** [AllowRoles]; the set is the one [AllowOwnerOrRole] builds. *)
Definition AllowRoles (allowed : list string) (next : Handler) : Handler := fun r =>
  match as_string (Value (Ctx r) UserRoleKey) with
  | (role, ok) =>
    if negb ok || bool_decide (role = "")
    then WriteSafeError StatusForbidden "Forbidden: no role provided"
    else if negb (bool_decide (role ∈ roleSet allowed))
    then WriteSafeError StatusForbidden "Forbidden: insufficient role"
    else next r
  end.

(** [bookService.GetOwnerID], over the repository method it calls
    ([BookRepository.GetOwnerID], an interface method). *)
Definition GetOwnerID (repo_GetOwnerID : Z -> Z * error) (bookID : Z) : Z * error :=
  match repo_GetOwnerID bookID with
  | (_, Some e) => (0, Some e)
  | (ownerID, None) =>
    if ownerID =? 0 then (0, Some "Book not found.") else (ownerID, None)
  end.

(** The loader [BookHandler.RegisterRoutes] hands to [EnforceOwnership]:
    [func(r, id) { return h.Service.GetOwnerID(id) }]. *)
Definition serviceLoader (repo_GetOwnerID : Z -> Z * error) : OwnerLoader :=
  fun _ id => GetOwnerID repo_GetOwnerID id.

(** The role the role policy reads: a non-empty string under [UserRoleKey]
    that is one of [allowed]. *)
Definition has_allowed_role (allowed : list string) (r : Request) : Prop :=
  exists role, Value (Ctx r) UserRoleKey = AString role /\ role <> "" /\ role ∈ allowed.

(** The lookup of [EnforceOwnership] was made and named [userID] the owner. *)
Definition owns (paramName : string) (loader : OwnerLoader) (r : Request) (userID : Z)
  : Prop :=
  exists rid, Atoi (URLParam r paramName) = (rid, None) /\ loader r rid = (userID, None).

(** A repository with one book, 7, owned by user 2. *)
Definition one_owner : Z -> Z * error := fun bookID =>
  if bookID =? 7 then (2, None) else (0, Some "sql: no rows in result set").

(** ** Requests the authentication stage accepts *)

(** The header starts with "Bearer" and the library accepts what follows,
    spaces deleted, with a numeric [user_id] [f] and a string [user_role]
    [role]. *)
Definition token_accepted (jwt_Parse : string -> string -> Token * error)
    (secret : string) (r : Request) (f : spec_float) (role : string) : Prop :=
  HasPrefix (Header_Get r "Authorization") "Bearer" = true
  /\ exists token claims,
      jwt_Parse (ReplaceAll (TrimPrefix (Header_Get r "Authorization") "Bearer") " " "")
                secret = (token, None)
      /\ Valid token = true
      /\ TokenClaims token = MapClaims claims
      /\ claims !! "user_id" = Some (AFloat64 f)
      /\ claims !! "user_role" = Some (AString role).

(** The request [JWTAuth] hands on: [r] with the identity attached. *)
Definition authenticated (r : Request) (f : spec_float) (role : string) : Request :=
  WithContext r
    (WithValue (WithValue (Ctx r) UserIDKey (AInt (int_of_float64 f)))
               UserRoleKey (AString role)).

(** ** What [Apply] emits around the handler *)

(** The events of [Apply] before the handler of a request that is not a
    preflight, and its last log line, [d] being the time the request took. *)
Definition before_handler (r : Request) : list event :=
  [EvLog "Started HTTP Request %s %s" [AString (Method r); AString (URLPath r)];
   EvSetHeader "Access-Control-Allow-Origin" "*";
   EvSetHeader "Access-Control-Allow-Methods" "GET, POST, PUT, DELETE, OPTIONS";
   EvSetHeader "Access-Control-Allow-Headers" "Content-Type";
   EvLog "User-Agent: %s" [AString (Header_Get r "User-Agent")]].

Definition completed_line (r : Request) (d : Z) : event :=
  EvLog ("Completed %s %s in %v " +:+ newline +:+ newline)
        [AString (Method r); AString (URLPath r); AInt d].

(** A handler that panics with the text of an internal error. *)
Definition failing_handler : Handler := fun _ => panic (AError "nil map write").

End Http.

(* ================================================================== *)
(** * Properties of the page transfer                                   *)
(* ================================================================== *)

Section TransferFacts.
Import Transfer.

Lemma Exec_log f tx delta id st :
  st_log (fst (fst (Exec f tx delta id st))) = st_log st ++ [EvExec delta id]
  /\ st_rows (fst (fst (Exec f tx delta id st))) = st_rows st.
Proof.
  unfold Exec. repeat case_match; simpl; auto.
Qed.

Lemma Exec_rows_ok f tx delta id st st' tx' :
  Exec f tx delta id st = (st', tx', None) ->
  tx_rows tx' =
    match tx_rows tx !! id with
    | Some p => <[id := p + delta]> (tx_rows tx)
    | None => tx_rows tx
    end.
Proof.
  unfold Exec. intros H.
  repeat case_match; simplify_eq; reflexivity.
Qed.

Lemma TransferPages_unfold f req st :
  begin_fault f = None ->
  TransferPages f req st =
    match first_update f req st with
    | (st1, tx1, Some e) => (Rollback tx1 st1, Some e)
    | (st1, tx1, None) =>
      match Exec f tx1 (Pages req) (ToID req) st1 with
      | (st2, tx2, Some e) => (Rollback tx2 st2, Some e)
      | (st2, tx2, None) => (fst (Commit f tx2 st2), None)
      end
    end.
Proof.
  intros Hb. unfold TransferPages, Begin, body, first_update. rewrite Hb.
  destruct (Exec f _ (- Pages req) (FromID req) _) as [[st1 tx1] [e|]]; simpl; [reflexivity|].
  destruct (Exec f tx1 (Pages req) (ToID req) st1) as [[st2 tx2] [e|]]; reflexivity.
Qed.

(** C1.  Once the transaction has begun: if the first [UPDATE] succeeds and
    the second (destination-side) [UPDATE] returns an error [e], then
    [TransferPages] returns exactly [e], the transaction is rolled back
    ([Rollback] is the last call and [Commit] is never made), and the
    committed rows, among them the source book's pages, are what they were
    before the call.  A failing source-side [UPDATE] is returned and rolled
    back in the same way: no failing mutation yields a [nil] result. *)
Theorem TransferPages_failed_update_rolls_back
    (f : Faults) (req : TransferRequest) (st : Store) :
  begin_fault f = None ->
  (forall e,
      snd (first_update f req st) = None ->
      snd (second_update f req st) = Some e ->
      snd (TransferPages f req st) = Some e
      /\ st_rows (fst (TransferPages f req st)) = st_rows st
      /\ pagesOf (fst (TransferPages f req st)) (FromID req) = pagesOf st (FromID req)
      /\ st_log (fst (TransferPages f req st)) =
           st_log st ++ [EvBegin; EvExec (- Pages req) (FromID req);
                         EvExec (Pages req) (ToID req); EvRollback])
  /\ (forall e,
      snd (first_update f req st) = Some e ->
      snd (TransferPages f req st) = Some e
      /\ st_rows (fst (TransferPages f req st)) = st_rows st
      /\ st_log (fst (TransferPages f req st)) =
           st_log st ++ [EvBegin; EvExec (- Pages req) (FromID req); EvRollback]).
Proof.
  intros Hb.
  pose proof (Exec_log f {| tx_rows := st_rows st; tx_count := 0 |}
                (- Pages req) (FromID req) (logged EvBegin st)) as [Hl1 Hr1].
  split; intros e.
  - intros H1 H2. rewrite (TransferPages_unfold _ _ _ Hb).
    unfold second_update in H2. unfold first_update in *.
    destruct (Exec f _ (- Pages req) (FromID req) _) as [[st1 tx1] r1].
    simpl in H1, Hl1, Hr1. subst r1.
    pose proof (Exec_log f tx1 (Pages req) (ToID req) st1) as [Hl2 Hr2].
    destruct (Exec f tx1 (Pages req) (ToID req) st1) as [[st2 tx2] r2].
    simpl in H2, Hl2, Hr2. subst r2. simpl.
    assert (Hrows : st_rows st2 = st_rows st) by (rewrite Hr2, Hr1; reflexivity).
    repeat split.
    + exact Hrows.
    + unfold pagesOf. simpl. rewrite Hrows. reflexivity.
    + rewrite Hl2, Hl1. simpl. rewrite <- !app_assoc. reflexivity.
  - intros H1. rewrite (TransferPages_unfold _ _ _ Hb).
    unfold first_update in *.
    destruct (Exec f _ (- Pages req) (FromID req) _) as [[st1 tx1] r1].
    simpl in H1, Hl1, Hr1. subst r1. simpl.
    repeat split.
    + exact Hr1.
    + rewrite Hl1. simpl. rewrite <- !app_assoc. reflexivity.
Qed.

Lemma TransferPages_failed_update_witness :
  snd (TransferPages second_fails move_30 two_books) = Some "connection lost"
  /\ st_rows (fst (TransferPages second_fails move_30 two_books)) = st_rows two_books
  /\ pagesOf (fst (TransferPages second_fails move_30 two_books)) 1 = 100
  /\ st_log (fst (TransferPages second_fails move_30 two_books)) =
       [EvBegin; EvExec (-30) 1; EvExec 30 2; EvRollback].
Proof.
  destruct (TransferPages_failed_update_rolls_back second_fails move_30 two_books eq_refl)
    as [Hdest _].
  exact (Hdest "connection lost" eq_refl eq_refl).
Defined.

(** C2, as stated, fails on a self-transfer: the request is valid, the call
    returns [nil], and the source record is not decremented. *)
Lemma TransferPages_self_transfer_not_decremented :
  let st := {| st_rows := <[1 := 100]> ∅; st_log := [] |} in
  let req := {| FromID := 1; ToID := 1; Pages := 30 |} in
  validateTransferRequest req = None
  /\ snd (TransferPages no_faults req st) = None
  /\ st_rows st !! 1 = Some 100
  /\ st_rows (fst (TransferPages no_faults req st)) !! 1 = Some 100
  /\ st_rows (fst (TransferPages no_faults req st)) !! 1 <> Some (100 - 30).
Proof.
  vm_compute. repeat split; congruence.
Qed.

(** C2, amended.  For a valid transfer between two books that exist, on
    which [TransferPages] returns [nil]: the sum of the two pages fields is
    what it was before the call; when source and destination differ and the
    commit took effect, the source holds exactly [Pages] less and the
    destination exactly [Pages] more; on a self-transfer the record is
    unchanged. *)
Theorem TransferPages_conserves_pages
    (f : Faults) (req : TransferRequest) (st st' : Store) (a b : Z) :
  validateTransferRequest req = None ->
  TransferPages f req st = (st', None) ->
  st_rows st !! FromID req = Some a ->
  st_rows st !! ToID req = Some b ->
  pagesOf st' (FromID req) + pagesOf st' (ToID req) = a + b
  /\ (FromID req <> ToID req -> commit_fault f = None ->
      st_rows st' !! FromID req = Some (a - Pages req)
      /\ st_rows st' !! ToID req = Some (b + Pages req))
  /\ (FromID req = ToID req -> st_rows st' !! FromID req = Some a).
Proof.
  intros _ Hrun Ha Hb.
  destruct (begin_fault f) as [e0|] eqn:Hbegin.
  { unfold TransferPages, Begin in Hrun. rewrite Hbegin in Hrun. discriminate. }
  rewrite (TransferPages_unfold _ _ _ Hbegin) in Hrun.
  unfold first_update in Hrun.
  pose proof (Exec_log f {| tx_rows := st_rows st; tx_count := 0 |}
                (- Pages req) (FromID req) (logged EvBegin st)) as [_ Hr1].
  destruct (Exec f _ (- Pages req) (FromID req) _) as [[st1 tx1] [e1|]] eqn:E1;
    [discriminate|].
  pose proof (Exec_rows_ok _ _ _ _ _ _ _ E1) as R1. simpl in R1, Hr1.
  rewrite Ha in R1.
  pose proof (Exec_log f tx1 (Pages req) (ToID req) st1) as [_ Hr2].
  destruct (Exec f tx1 (Pages req) (ToID req) st1) as [[st2 tx2] [e2|]] eqn:E2;
    [discriminate|].
  pose proof (Exec_rows_ok _ _ _ _ _ _ _ E2) as R2. simpl in Hr2.
  rewrite R1 in R2.
  injection Hrun as Hst'.
  assert (Hst2 : st_rows st2 = st_rows st) by (rewrite Hr2, Hr1; reflexivity).
  unfold Commit in Hst'. unfold pagesOf.
  destruct (decide (FromID req = ToID req)) as [Heq|Hne].
  - rewrite <- Heq in *. rewrite lookup_insert_eq in R2.
    assert (b = a) by congruence. subst b.
    assert (Hlook : st_rows st' !! FromID req = Some a).
    { destruct (commit_fault f); subst st'; cbn [fst st_rows logged].
      - rewrite Hst2. exact Ha.
      - rewrite R2, lookup_insert_eq. f_equal; lia. }
    rewrite Hlook. cbn [default from_option id]. split; [reflexivity|]. split; [congruence|auto].
  - rewrite lookup_insert_ne in R2 by exact Hne. rewrite Hb in R2.
    destruct (commit_fault f) as [ec|] eqn:Hc; subst st'; cbn [fst st_rows logged].
    + rewrite Hst2, Ha, Hb. cbn [default from_option id]. repeat split; try congruence.
    + rewrite R2.
      assert (Hfrom : <[ToID req := b + Pages req]>
                        (<[FromID req := a + - Pages req]> (st_rows st)) !! FromID req
                      = Some (a - Pages req)).
      { rewrite lookup_insert_ne by congruence. rewrite lookup_insert_eq.
        f_equal; lia. }
      assert (Hto : <[ToID req := b + Pages req]>
                      (<[FromID req := a + - Pages req]> (st_rows st)) !! ToID req
                    = Some (b + Pages req)).
      { apply lookup_insert_eq. }
      rewrite Hfrom, Hto. cbn [default from_option id].
      repeat split; try congruence; lia.
Qed.

Lemma TransferPages_conserves_pages_witness :
  pagesOf (fst (TransferPages no_faults move_30 two_books)) 1
    + pagesOf (fst (TransferPages no_faults move_30 two_books)) 2 = 100 + 50
  /\ st_rows (fst (TransferPages no_faults move_30 two_books)) !! 1 = Some (100 - 30)
  /\ st_rows (fst (TransferPages no_faults move_30 two_books)) !! 2 = Some (50 + 30).
Proof.
  destruct (TransferPages_conserves_pages no_faults move_30 two_books
              (fst (TransferPages no_faults move_30 two_books)) 100 50
              eq_refl eq_refl eq_refl eq_refl) as (Hsum & Hmove & _).
  split; [exact Hsum|].
  apply Hmove; [discriminate | reflexivity].
Defined.

(** X1.  The result of [Commit] is stored in the local [err] after the
    result of [TransferPages] has been set: when both statements succeed
    and the commit fails, [TransferPages] returns [nil] and no row has
    changed. *)
Lemma TransferPages_commit_error_lost (f : Faults) (req : TransferRequest)
    (st : Store) (e : string) :
  begin_fault f = None ->
  snd (first_update f req st) = None ->
  snd (second_update f req st) = None ->
  commit_fault f = Some e ->
  snd (TransferPages f req st) = None
  /\ st_rows (fst (TransferPages f req st)) = st_rows st.
Proof.
  intros Hb H1 H2 Hc. rewrite (TransferPages_unfold _ _ _ Hb).
  unfold second_update in H2. unfold first_update in *.
  pose proof (Exec_log f {| tx_rows := st_rows st; tx_count := 0 |}
                (- Pages req) (FromID req) (logged EvBegin st)) as [_ Hr1].
  destruct (Exec f _ (- Pages req) (FromID req) _) as [[st1 tx1] r1].
  simpl in H1, Hr1. subst r1.
  pose proof (Exec_log f tx1 (Pages req) (ToID req) st1) as [_ Hr2].
  destruct (Exec f tx1 (Pages req) (ToID req) st1) as [[st2 tx2] r2].
  simpl in H2, Hr2. subst r2. unfold Commit. rewrite Hc. simpl.
  split; [reflexivity|]. rewrite Hr2, Hr1. reflexivity.
Qed.

Lemma TransferPages_commit_error_lost_witness :
  snd (TransferPages commit_fails move_30 two_books) = None
  /\ st_rows (fst (TransferPages commit_fails move_30 two_books)) = st_rows two_books.
Proof.
  exact (TransferPages_commit_error_lost commit_fails move_30 two_books
           "driver: bad connection" eq_refl eq_refl eq_refl eq_refl).
Defined.

Lemma Exec_credited f tx delta id st st' tx' :
  Exec f tx delta id st = (st', tx', None) ->
  tx_rows tx' = credited (tx_rows tx) delta id.
Proof. intros H. rewrite (Exec_rows_ok _ _ _ _ _ _ _ H). reflexivity. Qed.

Lemma Exec_result f tx delta id st :
  exists tx' r,
    Exec f tx delta id st = (logged (EvExec delta id) st, tx', r).
Proof.
  unfold Exec. repeat case_match; eexists _, _; reflexivity.
Qed.

(** X2.  Whatever fails and whatever the request, [TransferPages] leaves
    the committed rows either exactly as they were or with both updates
    applied; when it returns an error the rows are as they were.  No run
    ends with one of the two updates only. *)
Theorem TransferPages_all_or_nothing
    (f : Faults) (req : TransferRequest) (st : Store) :
  (forall e, snd (TransferPages f req st) = Some e ->
             st_rows (fst (TransferPages f req st)) = st_rows st)
  /\ (st_rows (fst (TransferPages f req st)) = st_rows st
      \/ (snd (TransferPages f req st) = None
          /\ st_rows (fst (TransferPages f req st)) = transferred req (st_rows st))).
Proof.
  destruct (begin_fault f) as [e0|] eqn:Hbegin.
  { unfold TransferPages, Begin. rewrite Hbegin. cbn. split; [reflexivity|left; reflexivity]. }
  rewrite (TransferPages_unfold _ _ _ Hbegin). unfold first_update.
  pose proof (Exec_log f {| tx_rows := st_rows st; tx_count := 0 |}
                (- Pages req) (FromID req) (logged EvBegin st)) as [_ Hr1].
  destruct (Exec f _ (- Pages req) (FromID req) _) as [[st1 tx1] [e1|]] eqn:E1;
    cbn [fst snd] in Hr1 |- *.
  { cbn. split; [intros _ _; exact Hr1|left; exact Hr1]. }
  pose proof (Exec_credited _ _ _ _ _ _ _ E1) as R1. cbn [tx_rows] in R1.
  pose proof (Exec_log f tx1 (Pages req) (ToID req) st1) as [_ Hr2].
  destruct (Exec f tx1 (Pages req) (ToID req) st1) as [[st2 tx2] [e2|]] eqn:E2;
    cbn [fst snd] in Hr2 |- *.
  { cbn. rewrite Hr2, Hr1. split; [reflexivity|left; reflexivity]. }
  pose proof (Exec_credited _ _ _ _ _ _ _ E2) as R2.
  split; [discriminate|].
  unfold Commit. destruct (commit_fault f); cbn.
  - left. rewrite Hr2, Hr1. reflexivity.
  - right. split; [reflexivity|]. rewrite R2, R1. reflexivity.
Qed.

(** X3.  The calls of one run: [Begin] alone when it fails; otherwise
    [Begin], then one or two [UPDATE]s, then exactly one call that ends the
    transaction.  That call is [Rollback] exactly when [TransferPages]
    returns an error, and [Commit] is only made after both [UPDATE]s. *)
Theorem TransferPages_resolves_transaction_once
    (f : Faults) (req : TransferRequest) (st : Store) :
  st_log (fst (TransferPages f req st)) = st_log st ++ calls_of f req st
  /\ match begin_fault f with
     | Some e => calls_of f req st = [EvBegin] /\ snd (TransferPages f req st) = Some e
     | None =>
       exists execs fin,
         calls_of f req st = EvBegin :: execs ++ [fin]
         /\ forallb is_exec execs = true
         /\ (fin = EvRollback /\ snd (TransferPages f req st) <> None
                /\ (length execs = 1 \/ length execs = 2)%nat
             \/ fin = EvCommit /\ snd (TransferPages f req st) = None
                /\ length execs = 2%nat)
     end.
Proof.
  unfold calls_of.
  destruct (begin_fault f) as [e0|] eqn:Hbegin.
  { unfold TransferPages, Begin. rewrite Hbegin. cbn [fst snd logged st_log].
    rewrite drop_app_length. repeat split; reflexivity. }
  rewrite (TransferPages_unfold _ _ _ Hbegin). unfold first_update.
  destruct (Exec_result f {| tx_rows := st_rows st; tx_count := 0 |}
              (- Pages req) (FromID req) (logged EvBegin st)) as (tx1 & r1 & ->).
  destruct r1 as [e1|].
  { cbn [fst snd Rollback logged st_log]. rewrite <- !app_assoc, drop_app_length.
    split; [reflexivity|].
    exists [EvExec (- Pages req) (FromID req)], EvRollback.
    repeat split. left. repeat split; [discriminate|left; reflexivity]. }
  destruct (Exec_result f tx1 (Pages req) (ToID req)
              (logged (EvExec (- Pages req) (FromID req)) (logged EvBegin st)))
    as (tx2 & r2 & ->).
  destruct r2 as [e2|].
  { cbn [fst snd Rollback logged st_log]. rewrite <- !app_assoc, drop_app_length.
    split; [reflexivity|].
    exists [EvExec (- Pages req) (FromID req); EvExec (Pages req) (ToID req)], EvRollback.
    repeat split. left. repeat split; [discriminate|right; reflexivity]. }
  assert (Hlog : st_log (fst (Commit f tx2
                   (logged (EvExec (Pages req) (ToID req))
                      (logged (EvExec (- Pages req) (FromID req)) (logged EvBegin st)))))
                 = st_log st ++ [EvBegin; EvExec (- Pages req) (FromID req);
                                 EvExec (Pages req) (ToID req); EvCommit]).
  { unfold Commit. destruct (commit_fault f); cbn [fst logged st_log];
      rewrite <- !app_assoc; reflexivity. }
  cbn [fst snd]. rewrite Hlog, drop_app_length.
  split; [reflexivity|].
  exists [EvExec (- Pages req) (FromID req); EvExec (Pages req) (ToID req)], EvCommit.
  repeat split. right. repeat split.
Qed.

(** X4.  [TransferPages] does not look at the number of rows a statement
    changed: a transfer from a book that exists to an id that has no row,
    whose commit takes effect, returns [nil], takes the pages from the
    source and gives them to nobody; every other row is untouched. *)
Theorem TransferPages_to_missing_book_loses_pages
    (f : Faults) (req : TransferRequest) (st st' : Store) (a : Z) :
  TransferPages f req st = (st', None) ->
  commit_fault f = None ->
  st_rows st !! FromID req = Some a ->
  st_rows st !! ToID req = None ->
  st_rows st' !! FromID req = Some (a - Pages req)
  /\ st_rows st' !! ToID req = None
  /\ (forall id, id <> FromID req -> st_rows st' !! id = st_rows st !! id).
Proof.
  intros Hrun Hc Ha Hb.
  destruct (TransferPages_all_or_nothing f req st) as [_ Hcases].
  assert (Hbegin : begin_fault f = None).
  { destruct (begin_fault f) eqn:E; [|reflexivity].
    unfold TransferPages, Begin in Hrun. rewrite E in Hrun. discriminate. }
  assert (Hrows : st_rows st' = transferred req (st_rows st)).
  { rewrite (TransferPages_unfold _ _ _ Hbegin) in Hrun. unfold first_update in Hrun.
    destruct (Exec f _ (- Pages req) (FromID req) _) as [[st1 tx1] [e1|]] eqn:E1;
      [discriminate|].
    pose proof (Exec_credited _ _ _ _ _ _ _ E1) as R1. cbn [tx_rows] in R1.
    destruct (Exec f tx1 (Pages req) (ToID req) st1) as [[st2 tx2] [e2|]] eqn:E2;
      [discriminate|].
    pose proof (Exec_credited _ _ _ _ _ _ _ E2) as R2.
    unfold Commit in Hrun. rewrite Hc in Hrun. cbn in Hrun.
    injection Hrun as <-. cbn. rewrite R2, R1. reflexivity. }
  assert (Hne : FromID req <> ToID req) by congruence.
  rewrite Hrows. unfold transferred, credited. rewrite Ha.
  rewrite lookup_insert_ne by exact Hne. rewrite Hb.
  split; [rewrite lookup_insert_eq; reflexivity|].
  split; [rewrite lookup_insert_ne by exact Hne; exact Hb|].
  intros id Hid. rewrite lookup_insert_ne by congruence. reflexivity.
Qed.

Lemma TransferPages_to_missing_book_witness :
  st_rows (fst (TransferPages no_faults to_missing_book one_book)) !! 1 = Some (100 - 30)
  /\ st_rows (fst (TransferPages no_faults to_missing_book one_book)) !! 9 = None.
Proof.
  destruct (TransferPages_to_missing_book_loses_pages no_faults to_missing_book one_book
              (fst (TransferPages no_faults to_missing_book one_book)) 100
              eq_refl eq_refl eq_refl eq_refl) as (Hfrom & Hto & _).
  split; [exact Hfrom|exact Hto].
Defined.

(** [bookService.TransferPages] checks the request before it touches
    the store: a request with a non-positive id or a negative quantity gets
    the validation error with no call made on the connection, and any
    other request gets exactly what the repository returns (a quantity of
    zero is accepted). *)
Theorem Service_TransferPages_validates_first
    (f : Faults) (req : TransferRequest) (st : Store) :
  (FromID req <= 0 \/ ToID req <= 0 \/ Pages req < 0 ->
     exists e, Service_TransferPages f req st = (st, Some e))
  /\ (0 < FromID req -> 0 < ToID req -> 0 <= Pages req ->
     Service_TransferPages f req st = TransferPages f req st).
Proof.
  unfold Service_TransferPages, validateTransferRequest. split.
  - intros H.
    destruct (Z.leb_spec (FromID req) 0); [eexists; reflexivity|].
    destruct (Z.leb_spec (ToID req) 0); [eexists; reflexivity|].
    destruct (Z.ltb_spec (Pages req) 0); [eexists; reflexivity|]. lia.
  - intros H1 H2 H3.
    destruct (Z.leb_spec (FromID req) 0); [lia|].
    destruct (Z.leb_spec (ToID req) 0); [lia|].
    destruct (Z.ltb_spec (Pages req) 0); [lia|].
    destruct (TransferPages f req st) as [st' [e|]]; reflexivity.
Qed.

Lemma Service_TransferPages_validates_first_witness :
  exists e, Service_TransferPages no_faults from_nobody two_books = (two_books, Some e).
Proof.
  destruct (Service_TransferPages_validates_first no_faults from_nobody two_books)
    as [Hinvalid _].
  apply Hinvalid. left. cbn. lia.
Defined.

End TransferFacts.

(* ================================================================== *)
(** * Properties of the rate limiter                                    *)
(* ================================================================== *)

Section RateLimitFacts.
Import Go Http.

Lemma saturate64_window (d : Z) :
  (limitWindow <? saturate64 d) = (limitWindow <? d).
Proof.
  unfold saturate64, limitWindow, int64_min, int64_max.
  destruct (Z.ltb_spec (60 * 1000000000) d);
    destruct (Z.ltb_spec (60 * 1000000000) (Z.max (- 2 ^ 63) (Z.min (2 ^ 63 - 1) d)));
    try reflexivity; lia.
Qed.

Lemma wrap64_small (z : Z) : - 2 ^ 63 <= z < 2 ^ 63 -> wrap64 z = z.
Proof.
  intros H. unfold wrap64.
  rewrite Z.mod_small by lia. lia.
Qed.

(** The first request of an address, or one that comes after the window:
    the entry is (re)set to count 1 and the request goes on. *)
Lemma RateLimit_reset (next : Handler) (r : Request) (w : World) :
  match w_visitors w !! RemoteAddr r with
  | None => True
  | Some e => limitWindow < w_clock w - LastSeen e
  end ->
  RateLimit next r w =
    next r (set_visitors
              (<[RemoteAddr r := {| LastSeen := w_clock w; Count := 1 |}]> (w_visitors w)) w).
Proof.
  intros H. unfold RateLimit.
  destruct (w_visitors w !! RemoteAddr r) as [e|]; [|reflexivity].
  rewrite saturate64_window.
  destruct (Z.ltb_spec limitWindow (w_clock w - LastSeen e)); [reflexivity|lia].
Qed.

(** A request within the window: the count goes up by one and decides. *)
Lemma RateLimit_within (next : Handler) (r : Request) (w : World) (e : rateLimitEntry) :
  w_visitors w !! RemoteAddr r = Some e ->
  w_clock w - LastSeen e <= limitWindow ->
  0 <= Count e < int64_max ->
  RateLimit next r w =
    let w' := set_visitors
                (<[RemoteAddr r := {| LastSeen := w_clock w; Count := Count e + 1 |}]>
                   (w_visitors w)) w in
    if requestCap <? Count e + 1
    then WriteSafeError StatusTooManyRequests "Rate limit exceeded" w'
    else next r w'.
Proof.
  intros Hl Hd Hc. unfold RateLimit. rewrite Hl, saturate64_window.
  destruct (Z.ltb_spec limitWindow (w_clock w - LastSeen e)); [lia|].
  cbn [Count]. unfold int64_max in Hc.
  rewrite wrap64_small by lia. reflexivity.
Qed.

Lemma probe_run (r : Request) (w : World) :
  probe r w = (add_event (EvServed r) w, Done tt).
Proof. reflexivity. Qed.

(** The three writes of [WriteSafeError], as one step. *)
Lemma WriteSafeError_run (code : Z) (msg : string) (w : World) :
  WriteSafeError code msg w =
    (add_events [EvSetHeader "Content-Type" "application/json";
                 EvWriteHeader code;
                 EvWriteBody {| Error := StatusText code; Message := msg |}] w,
     Done tt).
Proof.
  unfold WriteSafeError, bind, emit, add_event, add_events. cbn.
  rewrite <- !app_assoc. reflexivity.
Qed.

Lemma serve_within_window (ip : string) (T0 : Z) (reqs : list (Z * Request)) :
  forall (w : World) (e : rateLimitEntry),
    w_visitors w !! ip = Some e ->
    T0 <= LastSeen e <= T0 + limitWindow ->
    1 <= Count e ->
    Count e + Z.of_nat (length reqs) <= requestCap ->
    Forall (in_window ip T0) reqs ->
    w_trace (serve (RateLimit probe) reqs w)
      = w_trace w ++ map (fun a => EvServed a.2) reqs
    /\ exists e',
        w_visitors (serve (RateLimit probe) reqs w) !! ip = Some e'
        /\ Count e' = Count e + Z.of_nat (length reqs)
        /\ T0 <= LastSeen e' <= T0 + limitWindow.
Proof.
  induction reqs as [|[t r] reqs IH]; intros w e Hl Hseen Hpos Hcap Hall.
  - simpl. rewrite app_nil_r. split; [reflexivity|]. exists e.
    repeat split; try assumption; lia.
  - apply Forall_cons in Hall as [[Hip Ht] Hall]. simpl in Hip, Ht. subst ip.
    cbn [serve].
    assert (Hcap' : Count e + 1 <= requestCap).
    { cbn [length] in Hcap. lia. }
    rewrite (RateLimit_within probe r (set_clock t w) e); cbn [set_clock w_visitors w_clock];
      try assumption; try lia; [|unfold requestCap, int64_max in *; lia].
    destruct (Z.ltb_spec requestCap (Count e + 1)); [lia|].
    rewrite probe_run. cbn [fst].
    set (e1 := {| LastSeen := t; Count := Count e + 1 |}).
    set (w1 := add_event _ _).
    destruct (IH w1 e1) as (Htr & e' & Hl' & Hc' & Hs').
    + subst w1. cbn [add_event set_visitors w_visitors]. apply lookup_insert_eq.
    + exact Ht.
    + cbn [e1 Count]. lia.
    + cbn [e1 Count]. cbn [length] in Hcap. lia.
    + exact Hall.
    + split.
      * rewrite Htr. subst w1. cbn [add_event set_visitors w_trace map snd].
        rewrite <- app_assoc. reflexivity.
      * exists e'. repeat split; try tauto.
        rewrite Hc'. cbn [e1 Count length]. lia.
Qed.

(** C5.  An address with no live entry (none, or one last seen more than a
    window before [T0]) sends [requestCap] = 60 requests, all read from the
    clock within the window [[T0, T0 + limitWindow]]: every one of them
    reaches the downstream handler, and the count stands at 60.  One more
    request within the window gets the 429 response "Rate limit exceeded"
    whatever the downstream handler is, which therefore does not run.  And
    a request that arrives more than a window after the entry was last seen
    goes on to the downstream handler with the entry reset to count 1. *)
Theorem RateLimit_window_property
    (ip : string) (T0 : Z) (w : World) (reqs : list (Z * Request))
    (t61 : Z) (r61 : Request) :
  match w_visitors w !! ip with
  | None => True
  | Some e => LastSeen e + limitWindow < T0
  end ->
  length reqs = Z.to_nat requestCap ->
  Forall (in_window ip T0) reqs ->
  in_window ip T0 (t61, r61) ->
  let w60 := serve (RateLimit probe) reqs w in
  w_trace w60 = w_trace w ++ map (fun a => EvServed a.2) reqs
  /\ (exists e, w_visitors w60 !! ip = Some e /\ Count e = 60)
  /\ (forall next : Handler,
        exists w61,
          RateLimit next r61 (set_clock t61 w60) = (w61, Done tt)
          /\ w_trace w61 = w_trace w60 ++ rejection 429 "Rate limit exceeded")
  /\ (forall (next : Handler) (r : Request) (w0 : World) (e : rateLimitEntry),
        w_visitors w0 !! RemoteAddr r = Some e ->
        limitWindow < w_clock w0 - LastSeen e ->
        RateLimit next r w0 =
          next r (set_visitors
                    (<[RemoteAddr r := {| LastSeen := w_clock w0; Count := 1 |}]>
                       (w_visitors w0)) w0)).
Proof.
  intros Hfresh Hlen Hall [Hip61 Ht61] w60. cbn [fst snd] in Hip61, Ht61.
  destruct reqs as [|[t1 r1] rest]; [discriminate Hlen|].
  apply Forall_cons in Hall as [[Hip1 Ht1] Hall]. cbn [fst snd] in Hip1, Ht1.
  assert (Hstep : serve (RateLimit probe) ((t1, r1) :: rest) w =
                  serve (RateLimit probe) rest
                    (add_event (EvServed r1)
                       (set_visitors
                          (<[ip := {| LastSeen := t1; Count := 1 |}]> (w_visitors w))
                          (set_clock t1 w)))).
  { cbn [serve]. rewrite RateLimit_reset.
    - rewrite probe_run. cbn [fst set_clock w_visitors w_clock]. rewrite Hip1. reflexivity.
    - cbn [set_clock w_visitors w_clock]. rewrite Hip1.
      destruct (w_visitors w !! ip) as [e|]; [lia|exact I]. }
  set (w1 := add_event _ _) in Hstep.
  destruct (serve_within_window ip T0 rest w1 {| LastSeen := t1; Count := 1 |})
    as (Htr & e' & Hl' & Hc' & Hs').
  { subst w1. cbn [add_event set_visitors w_visitors]. apply lookup_insert_eq. }
  { exact Ht1. }
  { cbn [Count]. lia. }
  { cbn [Count]. cbn [length] in Hlen. unfold requestCap in *. lia. }
  { exact Hall. }
  cbn [Count] in Hc'. cbn [length] in Hlen. unfold requestCap in Hlen.
  assert (Hc60 : Count e' = 60) by lia.
  subst w60. rewrite Hstep.
  split; [|split; [|split]].
  - rewrite Htr. subst w1. cbn [add_event set_visitors set_clock w_trace map snd].
    rewrite <- app_assoc. reflexivity.
  - exists e'. split; assumption.
  - intros next.
    rewrite (RateLimit_within next r61 _ e');
      cbn [set_clock w_visitors w_clock]; rewrite ?Hip61; try assumption;
      [|lia|unfold int64_max; lia].
    rewrite Hc60. change (requestCap <? 60 + 1) with true. cbv beta iota zeta.
    rewrite WriteSafeError_run.
    eexists. split; [reflexivity|]. reflexivity.
  - intros next r w0 e Hl Hd. apply RateLimit_reset. rewrite Hl. exact Hd.
Qed.

Lemma RateLimit_window_witness :
  let w60 := serve (RateLimit probe) burst empty_world in
  w_trace w60 = map (fun a => EvServed a.2) burst
  /\ (exists e, w_visitors w60 !! "10.0.0.7:4242" = Some e /\ Count e = 60)
  /\ (forall next : Handler,
        exists w61,
          RateLimit next (request_with [] "7") (set_clock 2000 w60) = (w61, Done tt)
          /\ w_trace w61 = w_trace w60 ++ rejection 429 "Rate limit exceeded").
Proof.
  intros w60.
  assert (Hall : Forall (in_window "10.0.0.7:4242" 0) burst).
  { apply Forall_replicate. unfold in_window, limitWindow. cbn. split; [reflexivity|lia]. }
  assert (Hlast : in_window "10.0.0.7:4242" 0 (2000, request_with [] "7")).
  { unfold in_window, limitWindow. cbn. split; [reflexivity|lia]. }
  destruct (RateLimit_window_property "10.0.0.7:4242" 0 empty_world burst 2000
              (request_with [] "7") I eq_refl Hall Hlast)
    as (Htrace & Hcount & Hreject & _).
  split; [exact Htrace|]. split; [exact Hcount|exact Hreject].
Defined.

(** [RateLimit] in terms of [decide_entry]: the decision rests on the
    entry of the request's own address and on the clock. *)
Lemma RateLimit_decide (next : Handler) (r : Request) (w : World) :
  RateLimit next r w =
    let d := decide_entry (w_visitors w !! RemoteAddr r) (w_clock w) in
    let w' := set_visitors (<[RemoteAddr r := fst d]> (w_visitors w)) w in
    if snd d then next r w'
    else WriteSafeError StatusTooManyRequests "Rate limit exceeded" w'.
Proof.
  unfold RateLimit, decide_entry.
  destruct (w_visitors w !! RemoteAddr r) as [e|]; [|reflexivity].
  destruct (limitWindow <? saturate64 (w_clock w - LastSeen e)); [reflexivity|].
  cbn [fst snd Count].
  destruct (requestCap <? wrap64 (Count e + 1)); reflexivity.
Qed.

(** One request served by [RateLimit probe] at time [t]. *)
Lemma serve_step (t : Z) (r : Request) (w : World) :
  let d := decide_entry (w_visitors w !! RemoteAddr r) t in
  fst (RateLimit probe r (set_clock t w)) =
    add_events (if snd d then [EvServed r] else rejection 429 "Rate limit exceeded")
      (set_visitors (<[RemoteAddr r := fst d]> (w_visitors w)) (set_clock t w)).
Proof.
  cbv zeta. rewrite RateLimit_decide. cbv zeta. cbn [set_clock w_visitors w_clock].
  destruct (snd (decide_entry (w_visitors w !! RemoteAddr r) t)).
  - rewrite probe_run. reflexivity.
  - rewrite WriteSafeError_run. reflexivity.
Qed.

Lemma served_of_app (es1 es2 : list event) :
  served_of (es1 ++ es2) = served_of es1 ++ served_of es2.
Proof.
  induction es1 as [|e es1 IH]; [reflexivity|].
  destruct e; cbn [served_of app]; rewrite IH; reflexivity.
Qed.

Lemma serve_trace_extends (reqs : list (Z * Request)) :
  forall w, w_trace (serve (RateLimit probe) reqs w)
            = w_trace w ++ emitted_serving (RateLimit probe) reqs w.
Proof.
  unfold emitted_serving.
  induction reqs as [|[t r] reqs IH]; intros w.
  - cbn [serve]. rewrite drop_all, app_nil_r. reflexivity.
  - cbn [serve]. rewrite serve_step. cbv zeta.
    set (w1 := add_events _ _).
    rewrite (IH w1).
    assert (Hw1 : exists es, w_trace w1 = w_trace w ++ es).
    { subst w1. cbn. eexists. reflexivity. }
    destruct Hw1 as [es Hes]. rewrite Hes, <- !app_assoc, drop_app_length.
    reflexivity.
Qed.

Lemma emitted_serving_cons (t : Z) (r : Request) (reqs : list (Z * Request)) (w : World) :
  let d := decide_entry (w_visitors w !! RemoteAddr r) t in
  let evs := if snd d then [EvServed r] else rejection 429 "Rate limit exceeded" in
  emitted_serving (RateLimit probe) ((t, r) :: reqs) w =
    evs ++ emitted_serving (RateLimit probe) reqs
             (add_events evs
                (set_visitors (<[RemoteAddr r := fst d]> (w_visitors w)) (set_clock t w))).
Proof.
  cbv zeta. unfold emitted_serving at 1. cbn [serve]. rewrite serve_step. cbv zeta.
  match goal with
  | |- context [serve _ reqs ?w0] => rewrite (serve_trace_extends reqs w0)
  end.
  cbn [add_events set_visitors set_clock w_trace].
  rewrite <- app_assoc, drop_app_length. reflexivity.
Qed.

Lemma served_of_rejection (code : Z) (msg : string) : served_of (rejection code msg) = [].
Proof. reflexivity. Qed.

Lemma serve_paced (ip : string) (reqs : list (Z * Request)) :
  forall (w : World) (e : rateLimitEntry),
    w_visitors w !! ip = Some e ->
    1 <= Count e ->
    Count e + Z.of_nat (length reqs) < int64_max ->
    paced ip (LastSeen e) reqs ->
    served_of (emitted_serving (RateLimit probe) reqs w)
      = map snd (take (Z.to_nat (requestCap - Count e)) reqs).
Proof.
  induction reqs as [|[t r] reqs IH]; intros w e Hl Hpos Hbound Hp.
  - unfold emitted_serving. cbn [serve]. rewrite drop_all, take_nil. reflexivity.
  - destruct Hp as (Hip & Hgap & Hp). subst ip.
    rewrite emitted_serving_cons. cbv zeta. rewrite Hl.
    unfold decide_entry. rewrite saturate64_window.
    destruct (Z.ltb_spec limitWindow (t - LastSeen e)); [lia|].
    cbn [length] in Hbound. unfold int64_max in Hbound.
    rewrite wrap64_small by lia. cbn [fst snd].
    set (e1 := {| LastSeen := t; Count := Count e + 1 |}).
    rewrite served_of_app.
    rewrite (IH _ e1); cbn [e1 Count LastSeen];
      [ | cbn [add_events set_visitors w_visitors]; apply lookup_insert_eq
        | lia | unfold int64_max; lia | exact Hp ].
    destruct (Z.ltb_spec requestCap (Count e + 1)) as [Hover|Hunder]; cbn [negb].
    + rewrite served_of_rejection.
      replace (Z.to_nat (requestCap - Count e)) with 0%nat by lia.
      replace (Z.to_nat (requestCap - (Count e + 1))) with 0%nat by lia.
      rewrite !take_0. reflexivity.
    + replace (Z.to_nat (requestCap - Count e))
        with (S (Z.to_nat (requestCap - (Count e + 1)))) by lia.
      reflexivity.
Qed.

(** X5.  The window is counted from the last request, not from the first:
    an address whose first request finds no live entry and whose later
    requests each arrive at most 60 seconds after the one before (however
    long the whole sequence lasts) has its first 60 requests served and
    every later one refused, for as long as it keeps that pace. *)
Theorem RateLimit_paced_sequence
    (ip : string) (w : World) (t1 : Z) (r1 : Request) (rest : list (Z * Request)) :
  match w_visitors w !! ip with
  | None => True
  | Some e => limitWindow < t1 - LastSeen e
  end ->
  RemoteAddr r1 = ip ->
  paced ip t1 rest ->
  Z.of_nat (length rest) < int64_max - 1 ->
  served_of (emitted_serving (RateLimit probe) ((t1, r1) :: rest) w)
    = map snd (take (Z.to_nat requestCap) ((t1, r1) :: rest)).
Proof.
  intros Hfresh Hip Hp Hlen. subst ip.
  rewrite emitted_serving_cons. cbv zeta.
  assert (Hd : decide_entry (w_visitors w !! RemoteAddr r1) t1
               = ({| LastSeen := t1; Count := 1 |}, true)).
  { unfold decide_entry. destruct (w_visitors w !! RemoteAddr r1) as [e|]; [|reflexivity].
    rewrite saturate64_window.
    destruct (Z.ltb_spec limitWindow (t1 - LastSeen e)); [reflexivity|lia]. }
  rewrite Hd. cbn [fst snd]. rewrite served_of_app.
  rewrite (serve_paced (RemoteAddr r1) rest _ {| LastSeen := t1; Count := 1 |});
    cbn [Count LastSeen];
    [ | cbn [add_events set_visitors w_visitors]; apply lookup_insert_eq
      | lia | lia | exact Hp ].
  reflexivity.
Qed.

Lemma RateLimit_paced_sequence_witness :
  served_of (emitted_serving (RateLimit probe)
               ((0, request_with [] "7") :: slow_three) empty_world)
    = map snd (take (Z.to_nat requestCap) ((0, request_with [] "7") :: slow_three)).
Proof.
  apply (RateLimit_paced_sequence "10.0.0.7:4242" empty_world 0 (request_with [] "7")
           slow_three).
  - exact I.
  - reflexivity.
  - unfold slow_three. cbn [paced].
    repeat split; try reflexivity; unfold limitWindow; lia.
  - unfold int64_max. cbn. lia.
Defined.

Lemma serve_cons_world (t : Z) (r : Request) (reqs : list (Z * Request)) (w : World) :
  let d := decide_entry (w_visitors w !! RemoteAddr r) t in
  let evs := if snd d then [EvServed r] else rejection 429 "Rate limit exceeded" in
  serve (RateLimit probe) ((t, r) :: reqs) w =
    serve (RateLimit probe) reqs
      (add_events evs
         (set_visitors (<[RemoteAddr r := fst d]> (w_visitors w)) (set_clock t w))).
Proof. cbv zeta. cbn [serve]. rewrite serve_step. reflexivity. Qed.

Lemma serve_isolated (ip : string) (reqs : list (Z * Request)) :
  forall w1 w2 : World,
    w_visitors w1 !! ip = w_visitors w2 !! ip ->
    w_visitors (serve (RateLimit probe) reqs w1) !! ip
      = w_visitors (serve (RateLimit probe)
                      (filter (fun a => RemoteAddr a.2 = ip) reqs) w2) !! ip
    /\ filter (fun r => RemoteAddr r = ip)
         (served_of (emitted_serving (RateLimit probe) reqs w1))
       = served_of (emitted_serving (RateLimit probe)
                      (filter (fun a => RemoteAddr a.2 = ip) reqs) w2).
Proof.
  induction reqs as [|[t r] reqs IH]; intros w1 w2 Hsame.
  - rewrite filter_nil. unfold emitted_serving. cbn [serve]. rewrite !drop_all.
    split; [exact Hsame|reflexivity].
  - destruct (decide (RemoteAddr r = ip)) as [Hip|Hip].
    + rewrite filter_cons_True by exact Hip.
      rewrite !serve_cons_world, !emitted_serving_cons. cbv zeta.
      rewrite Hip, Hsame.
      set (d := decide_entry (w_visitors w2 !! ip) t).
      match goal with
      | |- context [serve _ reqs ?a] =>
        match goal with
        | |- context [serve _ (filter _ reqs) ?b] =>
          destruct (IH a b) as [IHv IHs]
        end
      end.
      { cbn [add_events set_visitors w_visitors]. rewrite !lookup_insert_eq. reflexivity. }
      split; [exact IHv|].
      rewrite !served_of_app, filter_app, IHs. f_equal.
      destruct (snd d); [|reflexivity].
      cbn [served_of]. rewrite filter_cons_True by exact Hip. reflexivity.
    + rewrite filter_cons_False by exact Hip.
      rewrite serve_cons_world, emitted_serving_cons. cbv zeta.
      match goal with
      | |- context [serve _ reqs ?a] => destruct (IH a w2) as [IHv IHs]
      end.
      { cbn [add_events set_visitors w_visitors].
        rewrite lookup_insert_ne by exact Hip. exact Hsame. }
      split; [exact IHv|].
      rewrite served_of_app, filter_app, IHs.
      destruct (snd (decide_entry (w_visitors w1 !! RemoteAddr r) t)); [|reflexivity].
      cbn [served_of]. rewrite filter_cons_False by exact Hip. reflexivity.
Qed.

(** X6.  Addresses do not affect one another: serving a sequence of
    requests leaves the entry of an address, and the list of its requests
    that were let through, exactly as serving that address's requests
    alone (at the same times) would. *)
Theorem RateLimit_addresses_independent
    (ip : string) (reqs : list (Z * Request)) (w : World) :
  w_visitors (serve (RateLimit probe) reqs w) !! ip
    = w_visitors (serve (RateLimit probe)
                    (filter (fun a => RemoteAddr a.2 = ip) reqs) w) !! ip
  /\ filter (fun r => RemoteAddr r = ip)
       (served_of (emitted_serving (RateLimit probe) reqs w))
     = served_of (emitted_serving (RateLimit probe)
                    (filter (fun a => RemoteAddr a.2 = ip) reqs) w).
Proof. apply serve_isolated. reflexivity. Qed.

(** X7.  No entry is ever removed from [visitors]: after serving a
    sequence of requests the table holds an entry for exactly the
    addresses it held before and the addresses of the requests, refused
    ones included. *)
Theorem RateLimit_never_evicts
    (reqs : list (Z * Request)) (w : World) (ip : string) :
  is_Some (w_visitors (serve (RateLimit probe) reqs w) !! ip)
  <-> is_Some (w_visitors w !! ip) \/ ip ∈ map (fun a => RemoteAddr a.2) reqs.
Proof.
  revert w. induction reqs as [|[t r] reqs IH]; intros w.
  - cbn [serve map]. rewrite elem_of_nil. tauto.
  - rewrite serve_cons_world. cbv zeta. rewrite IH.
    cbn [add_events set_visitors w_visitors map snd].
    rewrite lookup_insert_is_Some, elem_of_cons.
    destruct (decide (RemoteAddr r = ip)) as [Hip|Hip]; [|split; intros H].
    + split; intros _; [right; left; symmetry; exact Hip|left; left; exact Hip].
    + destruct H as [[H|[_ H]]|H]; [contradiction|left; exact H|right; right; exact H].
    + destruct H as [H|[H|H]];
        [left; right; split; assumption|symmetry in H; contradiction|right; exact H].
Qed.

End RateLimitFacts.

(* ================================================================== *)
(** * Properties of the authorization stages                            *)
(* ================================================================== *)

Section AuthorizationFacts.
Import Go Http.

Lemma add_events_add_event (e : event) (es : list event) (w : World) :
  add_events es (add_event e w) = add_events (e :: es) w.
Proof.
  unfold add_events, add_event. cbn. rewrite <- app_assoc. reflexivity.
Qed.

Lemma trace_add_events (es : list event) (w : World) :
  drop (length (w_trace w)) (w_trace (add_events es w)) = es.
Proof. cbn. apply drop_app_length. Qed.

Lemma trace_add_event (e : event) (w : World) :
  drop (length (w_trace w)) (w_trace (add_event e w)) = [e].
Proof. cbn. apply drop_app_length. Qed.

Lemma elem_of_roleSet (role : string) (allowedRoles : list string) :
  role ∈ roleSet allowedRoles <-> role ∈ allowedRoles.
Proof.
  unfold roleSet.
  assert (G : forall (l : list string) (acc : gset string),
             role ∈ foldl (fun set x => {[ x ]} ∪ set) acc l <-> role ∈ acc \/ role ∈ l).
  { induction l as [|x l IH]; intros acc; cbn [foldl].
    - rewrite elem_of_nil. tauto.
    - rewrite IH, elem_of_cons, elem_of_union, elem_of_singleton. tauto. }
  rewrite G, elem_of_empty. tauto.
Qed.

(** What [EnforceOwnership] does once the context holds an integer user id. *)
Lemma EnforceOwnership_run (paramName : string) (loader : OwnerLoader)
    (next : Handler) (r : Request) (w : World) (userID : Z) :
  Value (Ctx r) UserIDKey = AInt userID ->
  EnforceOwnership paramName loader next r w =
    match Atoi (URLParam r paramName) with
    | (_, Some _) => (add_events (rejection 400 "Invalid ID") w, Done tt)
    | (rid, None) =>
      match loader r rid with
      | (_, Some _) =>
        (add_events (EvLoader rid :: rejection 500 "Could not verify ownership") w, Done tt)
      | (ownerID, None) =>
        if decide (userID = ownerID)
        then next r (add_event (EvLoader rid) w)
        else (add_events (EvLoader rid :: rejection 403 "Forbidden: not owner") w, Done tt)
      end
    end.
Proof.
  intros Hid. unfold EnforceOwnership. rewrite Hid. cbn [as_int].
  destruct (Atoi (URLParam r paramName)) as [rid [e|]].
  - apply WriteSafeError_run.
  - unfold call_loader, bind, emit, ret.
    destruct (loader r rid) as [ownerID [e|]].
    + rewrite WriteSafeError_run, add_events_add_event. reflexivity.
    + destruct (decide (userID = ownerID)) as [->|Hne].
      * rewrite Z.eqb_refl. reflexivity.
      * destruct (Z.eqb_spec userID ownerID); [contradiction|]. cbn [negb].
        rewrite WriteSafeError_run, add_events_add_event. reflexivity.
Qed.

(** C6.  On a request whose context holds the authenticated user id:
    the downstream handler runs exactly when the owner lookup was made and
    returned, without error, an owner id equal to the user id; when it
    returned a different owner id the response is 403 "Forbidden: not
    owner"; when it returned an error the response is 500 "Could not
    verify ownership"; in both rejections the result is the same for every
    downstream handler, which does not run. *)
Theorem EnforceOwnership_admits_owner_only
    (paramName : string) (loader : OwnerLoader) (r : Request) (w : World)
    (userID : Z) :
  Value (Ctx r) UserIDKey = AInt userID ->
  (EvServed r ∈ emitted (EnforceOwnership paramName loader probe) r w
     <-> exists rid, Atoi (URLParam r paramName) = (rid, None)
                     /\ loader r rid = (userID, None))
  /\ (forall rid ownerID (next : Handler),
        Atoi (URLParam r paramName) = (rid, None) ->
        loader r rid = (ownerID, None) ->
        userID <> ownerID ->
        EnforceOwnership paramName loader next r w =
          (add_events (EvLoader rid :: rejection 403 "Forbidden: not owner") w, Done tt))
  /\ (forall rid ownerID e (next : Handler),
        Atoi (URLParam r paramName) = (rid, None) ->
        loader r rid = (ownerID, Some e) ->
        EnforceOwnership paramName loader next r w =
          (add_events (EvLoader rid :: rejection 500 "Could not verify ownership") w,
           Done tt))
  /\ (forall rid (next : Handler),
        Atoi (URLParam r paramName) = (rid, None) ->
        loader r rid = (userID, None) ->
        EnforceOwnership paramName loader next r w = next r (add_event (EvLoader rid) w)).
Proof.
  intros Hid. split; [|split; [|split]].
  - unfold emitted. rewrite (EnforceOwnership_run _ _ _ _ _ _ Hid).
    assert (Hrej : forall code msg, EvServed r ∈ rejection code msg -> False).
    { intros code msg. unfold rejection. rewrite !elem_of_cons, elem_of_nil. intros H.
      repeat destruct H as [H|H]; try discriminate H. contradiction. }
    destruct (Atoi (URLParam r paramName)) as [rid [e|]] eqn:Ha.
    + cbn [fst]. rewrite trace_add_events. split.
      * intros H. destruct (Hrej _ _ H).
      * intros (rid' & H & _). discriminate H.
    + destruct (loader r rid) as [ownerID [e|]] eqn:Hl.
      * cbn [fst]. rewrite trace_add_events. split.
        -- rewrite elem_of_cons. intros [H|H]; [discriminate H|destruct (Hrej _ _ H)].
        -- intros (rid' & H & H'). injection H as <-. rewrite Hl in H'. discriminate H'.
      * destruct (decide (userID = ownerID)) as [->|Hne].
        -- rewrite probe_run. cbn [fst].
           change (add_event (EvServed r) (add_event (EvLoader rid) w))
             with (add_events [EvServed r] (add_event (EvLoader rid) w)).
           rewrite add_events_add_event, trace_add_events. split.
           ++ intros _. exists rid. split; [reflexivity|exact Hl].
           ++ intros _. rewrite !elem_of_cons. right. left. reflexivity.
        -- cbn [fst]. rewrite trace_add_events. split.
           ++ rewrite elem_of_cons. intros [H|H]; [discriminate H|destruct (Hrej _ _ H)].
           ++ intros (rid' & H & H'). injection H as <-. rewrite Hl in H'. congruence.
  - intros rid ownerID next Ha Hl Hne.
    rewrite (EnforceOwnership_run _ _ _ _ _ _ Hid), Ha, Hl.
    destruct (decide (userID = ownerID)); [contradiction|reflexivity].
  - intros rid ownerID e next Ha Hl.
    rewrite (EnforceOwnership_run _ _ _ _ _ _ Hid), Ha, Hl. reflexivity.
  - intros rid next Ha Hl.
    rewrite (EnforceOwnership_run _ _ _ _ _ _ Hid), Ha, Hl.
    destruct (decide (userID = userID)); [reflexivity|contradiction].
Qed.

Lemma EnforceOwnership_admits_owner_only_witness :
  let r := request_with (identity 2 "user") "7" in
  (EvServed r ∈ emitted (EnforceOwnership "id" book_owner probe) r empty_world
     <-> exists rid, Atoi (URLParam r "id") = (rid, None)
                     /\ book_owner r rid = (2, None))
  /\ (forall rid (next : Handler),
        Atoi (URLParam r "id") = (rid, None) ->
        book_owner r rid = (2, None) ->
        EnforceOwnership "id" book_owner next r empty_world =
          next r (add_event (EvLoader rid) empty_world)).
Proof.
  intros r.
  destruct (EnforceOwnership_admits_owner_only "id" book_owner r empty_world 2 eq_refl)
    as (Hiff & _ & _ & Hpass).
  split; [exact Hiff|exact Hpass].
Defined.

(** What [AllowOwnerOrRole] does once the context holds an integer user id. *)
Lemma AllowOwnerOrRole_run (paramName : string) (loader : OwnerLoader)
    (roleKey : contextKey) (allowedRoles : list string)
    (next : Handler) (r : Request) (w : World) (userID : Z) :
  Value (Ctx r) UserIDKey = AInt userID ->
  AllowOwnerOrRole paramName loader roleKey allowedRoles next r w =
    let role := fst (as_string (Value (Ctx r) roleKey)) in
    let rid := fst (Atoi (URLParam r paramName)) in
    let ownerID := fst (loader r rid) in
    if negb (userID =? ownerID) && negb (bool_decide (role ∈ roleSet allowedRoles))
    then (add_events (EvLoader rid :: rejection 403 "Forbidden") w, Done tt)
    else next r (add_event (EvLoader rid) w).
Proof.
  intros Hid. unfold AllowOwnerOrRole. rewrite Hid.
  unfold assert_int, call_loader, bind, emit, ret. cbv zeta.
  destruct (negb _ && negb _); [|reflexivity].
  rewrite WriteSafeError_run, add_events_add_event. reflexivity.
Qed.




(** C9.  On a request whose context holds no integer under [UserIDKey],
    [AllowOwnerOrRole] panics at the type assertion, before it has written
    anything, called the loader or run the downstream handler, while
    [EnforceOwnership] writes the 401 response "Unauthorized" and returns. *)
Theorem missing_identity_panics_or_rejects
    (paramName : string) (loader : OwnerLoader) (roleKey : contextKey)
    (allowedRoles : list string) (next : Handler) (r : Request) (w : World) :
  (forall n, Value (Ctx r) UserIDKey <> AInt n) ->
  AllowOwnerOrRole paramName loader roleKey allowedRoles next r w
    = (w, Panicked typeAssertionError)
  /\ EnforceOwnership paramName loader next r w
    = (add_events (rejection 401 "Unauthorized") w, Done tt).
Proof.
  intros Hno. unfold AllowOwnerOrRole, EnforceOwnership.
  destruct (Value (Ctx r) UserIDKey) as [|n| | | |] eqn:Hv;
    try (split; [reflexivity|apply WriteSafeError_run]).
  destruct (Hno n eq_refl).
Qed.

Lemma missing_identity_witness :
  let r := request_with [] "7" in
  AllowOwnerOrRole "id" book_owner UserRoleKey ["admin"] probe r empty_world
    = (empty_world, Panicked typeAssertionError)
  /\ EnforceOwnership "id" book_owner probe r empty_world
    = (add_events (rejection 401 "Unauthorized") empty_world, Done tt).
Proof.
  intros r.
  apply (missing_identity_panics_or_rejects "id" book_owner UserRoleKey ["admin"]
           probe r empty_world).
  intros n. discriminate.
Defined.

Lemma not_served_by_rejection (r : Request) (code : Z) (msg : string) :
  EvServed r ∉ rejection code msg.
Proof.
  unfold rejection. rewrite !elem_of_cons, elem_of_nil. intros H.
  repeat destruct H as [H|H]; try discriminate H. contradiction.
Qed.

(** What [AllowRoles] does, by the value under [UserRoleKey]. *)
Lemma AllowRoles_run (allowed : list string) (next : Handler) (r : Request) (w : World) :
  AllowRoles allowed next r w =
    match Value (Ctx r) UserRoleKey with
    | AString role =>
      if bool_decide (role = "")
      then (add_events (rejection 403 "Forbidden: no role provided") w, Done tt)
      else if bool_decide (role ∈ allowed)
           then next r w
           else (add_events (rejection 403 "Forbidden: insufficient role") w, Done tt)
    | _ => (add_events (rejection 403 "Forbidden: no role provided") w, Done tt)
    end.
Proof.
  unfold AllowRoles.
  destruct (Value (Ctx r) UserRoleKey) as [| | | role | |]; cbn [as_string negb orb];
    try apply WriteSafeError_run.
  destruct (bool_decide (role = "")); [apply WriteSafeError_run|].
  rewrite (bool_decide_ext _ _ (elem_of_roleSet role allowed)).
  destruct (bool_decide (role ∈ allowed)); [reflexivity|apply WriteSafeError_run].
Qed.

Lemma emitted_add_events (h : Handler) (r : Request) (w : World) (es : list event) c :
  h r w = (add_events es w, c) -> emitted h r w = es.
Proof. intros H. unfold emitted. rewrite H. apply trace_add_events. Qed.

Lemma AllowRoles_served (allowed : list string) (r : Request) (w : World) :
  EvServed r ∈ emitted (AllowRoles allowed probe) r w <-> has_allowed_role allowed r.
Proof.
  unfold has_allowed_role, emitted. rewrite AllowRoles_run.
  destruct (Value (Ctx r) UserRoleKey) as [| | | role | |];
    try (cbn [fst]; rewrite trace_add_events; split;
         [intros H; destruct (not_served_by_rejection _ _ _ H)
         |intros (role' & H & _); discriminate H]).
  destruct (bool_decide (role = "")) eqn:He.
  - apply bool_decide_eq_true in He. cbn [fst]. rewrite trace_add_events. split.
    + intros H. destruct (not_served_by_rejection _ _ _ H).
    + intros (role' & H & Hne & _). injection H as <-. contradiction.
  - apply bool_decide_eq_false in He.
    destruct (bool_decide (role ∈ allowed)) eqn:Hin.
    + apply bool_decide_eq_true in Hin. rewrite probe_run. cbn [fst].
      rewrite trace_add_event. split.
      * intros _. exists role. repeat split; assumption.
      * intros _. apply list_elem_of_singleton. reflexivity.
    + apply bool_decide_eq_false in Hin. cbn [fst]. rewrite trace_add_events. split.
      * intros H. destruct (not_served_by_rejection _ _ _ H).
      * intros (role' & H & _ & Hin'). injection H as <-. contradiction.
Qed.

(** The probe behind [EnforceOwnership] runs exactly when the lookup names
    the user as the owner. *)
Lemma EnforceOwnership_served (paramName : string) (loader : OwnerLoader)
    (r : Request) (w : World) (userID : Z) :
  Value (Ctx r) UserIDKey = AInt userID ->
  EvServed r ∈ emitted (EnforceOwnership paramName loader probe) r w
  <-> owns paramName loader r userID.
Proof.
  intros Hid. unfold emitted, owns. rewrite (EnforceOwnership_run _ _ _ _ _ _ Hid).
  destruct (Atoi (URLParam r paramName)) as [rid [e|]] eqn:Ha.
  - cbn [fst]. rewrite trace_add_events. split.
    + intros H. destruct (not_served_by_rejection _ _ _ H).
    + intros (rid' & H & _). discriminate H.
  - destruct (loader r rid) as [ownerID [e|]] eqn:Hl.
    + cbn [fst]. rewrite trace_add_events. split.
      * rewrite elem_of_cons. intros [H|H];
          [discriminate H|destruct (not_served_by_rejection _ _ _ H)].
      * intros (rid' & H & H'). injection H as <-. rewrite Hl in H'. discriminate H'.
    + destruct (decide (userID = ownerID)) as [->|Hne].
      * rewrite probe_run. cbn [fst].
        change (add_event (EvServed r) (add_event (EvLoader rid) w))
          with (add_events [EvServed r] (add_event (EvLoader rid) w)).
        rewrite add_events_add_event, trace_add_events. split.
        -- intros _. exists rid. split; [reflexivity|exact Hl].
        -- intros _. rewrite !elem_of_cons. right. left. reflexivity.
      * cbn [fst]. rewrite trace_add_events. split.
        -- rewrite elem_of_cons. intros [H|H];
             [discriminate H|destruct (not_served_by_rejection _ _ _ H)].
        -- intros (rid' & H & H'). injection H as <-. rewrite Hl in H'. congruence.
Qed.

(** X8.  [AllowRoles] lets a request through exactly when its context
    holds, under [UserRoleKey], a non-empty string that is one of the
    allowed roles (their order and repetitions do not matter).  A role
    that is missing, not a string or empty is refused with "Forbidden: no
    role provided" even when the empty string is listed as allowed; any
    other role is refused with "Forbidden: insufficient role".  Neither
    refusal depends on the downstream handler. *)
Theorem AllowRoles_admits_listed_roles
    (allowed : list string) (r : Request) (w : World) :
  (EvServed r ∈ emitted (AllowRoles allowed probe) r w <-> has_allowed_role allowed r)
  /\ (forall next : Handler,
        (forall role, Value (Ctx r) UserRoleKey = AString role -> role = "") ->
        AllowRoles allowed next r w =
          (add_events (rejection 403 "Forbidden: no role provided") w, Done tt))
  /\ (forall (next : Handler) (role : string),
        Value (Ctx r) UserRoleKey = AString role -> role <> "" -> role ∉ allowed ->
        AllowRoles allowed next r w =
          (add_events (rejection 403 "Forbidden: insufficient role") w, Done tt))
  /\ (forall (allowed' : list string) (next : Handler),
        (forall role, role ∈ allowed <-> role ∈ allowed') ->
        AllowRoles allowed next r w = AllowRoles allowed' next r w).
Proof.
  split; [apply AllowRoles_served|]. split; [|split].
  - intros next Hnone. rewrite AllowRoles_run.
    destruct (Value (Ctx r) UserRoleKey) as [| | | role | |]; try reflexivity.
    rewrite (Hnone role eq_refl). reflexivity.
  - intros next role Hv Hne Hin. rewrite AllowRoles_run, Hv.
    rewrite (bool_decide_eq_false_2 _ Hne), (bool_decide_eq_false_2 _ Hin). reflexivity.
  - intros allowed' next Hsame. rewrite !AllowRoles_run.
    destruct (Value (Ctx r) UserRoleKey) as [| | | role | |]; try reflexivity.
    rewrite (bool_decide_ext _ _ (Hsame role)). reflexivity.
Qed.

Lemma AllowRoles_admits_listed_roles_witness :
  let r := request_with (identity 2 "") "7" in
  AllowRoles [""; "admin"] probe r empty_world =
    (add_events (rejection 403 "Forbidden: no role provided") empty_world, Done tt).
Proof.
  intros r.
  destruct (AllowRoles_admits_listed_roles [""; "admin"] r empty_world)
    as (_ & Hnone & _).
  apply Hnone. intros role H. injection H as <-. reflexivity.
Defined.

Lemma AllowOwnerOrRole_served (paramName : string) (loader : OwnerLoader)
    (allowed : list string) (r : Request) (w : World) (userID : Z) :
  Value (Ctx r) UserIDKey = AInt userID ->
  EvServed r ∈ emitted (AllowOwnerOrRole paramName loader UserRoleKey allowed probe) r w
  <-> fst (as_string (Value (Ctx r) UserRoleKey)) ∈ allowed
      \/ userID = fst (loader r (fst (Atoi (URLParam r paramName)))).
Proof.
  intros Hid. unfold emitted.
  rewrite (AllowOwnerOrRole_run _ _ _ _ _ _ _ _ Hid). cbv zeta.
  set (role := fst (as_string (Value (Ctx r) UserRoleKey))).
  set (rid := fst (Atoi (URLParam r paramName))).
  set (ownerID := fst (loader r rid)).
  rewrite (bool_decide_ext _ _ (elem_of_roleSet role allowed)).
  destruct (Z.eqb_spec userID ownerID) as [Heq|Hne]; cbn [negb andb].
  - rewrite probe_run. cbn [fst].
    change (add_event (EvServed r) (add_event (EvLoader rid) w))
      with (add_events [EvServed r] (add_event (EvLoader rid) w)).
    rewrite add_events_add_event, trace_add_events. split.
    + intros _. right. exact Heq.
    + intros _. rewrite !elem_of_cons. right. left. reflexivity.
  - destruct (bool_decide (role ∈ allowed)) eqn:Hin; cbn [negb].
    + apply bool_decide_eq_true in Hin. rewrite probe_run. cbn [fst].
      change (add_event (EvServed r) (add_event (EvLoader rid) w))
        with (add_events [EvServed r] (add_event (EvLoader rid) w)).
      rewrite add_events_add_event, trace_add_events. split.
      * intros _. left. exact Hin.
      * intros _. rewrite !elem_of_cons. right. left. reflexivity.
    + apply bool_decide_eq_false in Hin. cbn [fst]. rewrite trace_add_events. split.
      * rewrite elem_of_cons. intros [H|H];
          [discriminate H|destruct (not_served_by_rejection _ _ _ H)].
      * intros [H|H]; contradiction.
Qed.

(** X9.  The combined policy admits whatever either policy admits: on a
    request that carries an integer user id, if [AllowRoles] with the same
    allowed roles lets it through, or [EnforceOwnership] with the same
    route parameter and loader does, then so does [AllowOwnerOrRole]. *)
Theorem AllowOwnerOrRole_covers_both_policies
    (paramName : string) (loader : OwnerLoader) (allowed : list string)
    (r : Request) (w : World) (userID : Z) :
  Value (Ctx r) UserIDKey = AInt userID ->
  EvServed r ∈ emitted (AllowRoles allowed probe) r w
  \/ EvServed r ∈ emitted (EnforceOwnership paramName loader probe) r w ->
  EvServed r ∈ emitted (AllowOwnerOrRole paramName loader UserRoleKey allowed probe) r w.
Proof.
  intros Hid H. apply (AllowOwnerOrRole_served _ _ _ _ _ _ Hid).
  destruct H as [H|H].
  - apply AllowRoles_served in H. destruct H as (role & Hv & _ & Hin).
    left. rewrite Hv. exact Hin.
  - apply (EnforceOwnership_served _ _ _ _ _ Hid) in H.
    destruct H as (rid & Ha & Hl). right. rewrite Ha. cbn [fst].
    rewrite Hl. reflexivity.
Qed.

Lemma AllowOwnerOrRole_covers_both_policies_witness :
  let r := request_with (identity 2 "user") "7" in
  EvServed r ∈ emitted (AllowOwnerOrRole "id" book_owner UserRoleKey ["admin"] probe)
                 r empty_world.
Proof.
  intros r.
  apply (AllowOwnerOrRole_covers_both_policies "id" book_owner ["admin"] r empty_world 2
           eq_refl).
  right. apply (EnforceOwnership_served "id" book_owner r empty_world 2 eq_refl).
  exists 7. split; reflexivity.
Defined.

Lemma owns_or_not (paramName : string) (loader : OwnerLoader) (r : Request) (userID : Z) :
  owns paramName loader r userID \/ ~ owns paramName loader r userID.
Proof.
  unfold owns.
  destruct (Atoi (URLParam r paramName)) as [rid [e|]] eqn:Ha.
  - right. intros (rid' & H & _). discriminate H.
  - destruct (loader r rid) as [ownerID [e|]] eqn:Hl.
    + right. intros (rid' & H & H'). injection H as <-. rewrite Hl in H'. discriminate H'.
    + destruct (decide (userID = ownerID)) as [->|Hne].
      * left. exists rid. split; [reflexivity|exact Hl].
      * right. intros (rid' & H & H'). injection H as <-. rewrite Hl in H'. congruence.
Qed.

(** The events of [AllowRoles] in front of the probe do not depend on the
    world. *)
Lemma AllowRoles_probe_events (allowed : list string) (r : Request) :
  exists es,
    (forall w, AllowRoles allowed probe r w = (add_events es w, Done tt))
    /\ (EvServed r ∈ es <-> has_allowed_role allowed r)
    /\ (~ has_allowed_role allowed r -> exists msg, es = rejection 403 msg).
Proof.
  unfold has_allowed_role.
  assert (Hrej : forall msg,
             (forall w, AllowRoles allowed probe r w = (add_events (rejection 403 msg) w, Done tt)) ->
             ~ (exists role, Value (Ctx r) UserRoleKey = AString role
                             /\ role <> "" /\ role ∈ allowed) ->
             exists es,
               (forall w, AllowRoles allowed probe r w = (add_events es w, Done tt))
               /\ (EvServed r ∈ es <-> exists role, Value (Ctx r) UserRoleKey = AString role
                                                  /\ role <> "" /\ role ∈ allowed)
               /\ (~ (exists role, Value (Ctx r) UserRoleKey = AString role
                                   /\ role <> "" /\ role ∈ allowed)
                   -> exists msg', es = rejection 403 msg')).
  { intros msg Hrun Hno. exists (rejection 403 msg). split; [exact Hrun|]. split.
    - split; [intros H; destruct (not_served_by_rejection _ _ _ H)|intros H; destruct (Hno H)].
    - intros _. exists msg. reflexivity. }
  destruct (Value (Ctx r) UserRoleKey) as [| | | role | |] eqn:Hv;
    try (apply (Hrej "Forbidden: no role provided");
         [intros w; rewrite AllowRoles_run, Hv; reflexivity
         |intros (role' & H & _); discriminate H]).
  destruct (decide (role = "")) as [He|He].
  { apply (Hrej "Forbidden: no role provided").
    - intros w. rewrite AllowRoles_run, Hv, (bool_decide_eq_true_2 _ He). reflexivity.
    - intros (role' & H & Hne & _). injection H as <-. contradiction. }
  destruct (decide (role ∈ allowed)) as [Hin|Hin].
  - exists [EvServed r]. split; [|split].
    + intros w. rewrite AllowRoles_run, Hv, (bool_decide_eq_false_2 _ He),
        (bool_decide_eq_true_2 _ Hin). apply probe_run.
    + split; [intros _; exists role; repeat split; assumption
             |intros _; apply list_elem_of_singleton; reflexivity].
    + intros Hno. destruct Hno. exists role. repeat split; assumption.
  - apply (Hrej "Forbidden: insufficient role").
    + intros w. rewrite AllowRoles_run, Hv, (bool_decide_eq_false_2 _ He),
        (bool_decide_eq_false_2 _ Hin). reflexivity.
    + intros (role' & H & _ & Hin'). injection H as <-. contradiction.
Qed.

(** X10.  The chain of the route DELETE /books/{id}, [EnforceOwnership]
    around [AllowRoles]: the handler runs exactly when the user owns the
    book and has an allowed role; ownership is decided first, so a user
    who is not the owner gets "Forbidden: not owner" whatever the role, and
    an owner without an allowed role is refused by the role policy after
    the lookup. *)
Theorem delete_route_needs_owner_and_role
    (paramName : string) (loader : OwnerLoader) (allowed : list string)
    (r : Request) (w : World) (userID : Z) :
  Value (Ctx r) UserIDKey = AInt userID ->
  (EvServed r ∈ emitted (EnforceOwnership paramName loader (AllowRoles allowed probe)) r w
     <-> owns paramName loader r userID /\ has_allowed_role allowed r)
  /\ (forall rid ownerID,
        Atoi (URLParam r paramName) = (rid, None) ->
        loader r rid = (ownerID, None) ->
        userID <> ownerID ->
        emitted (EnforceOwnership paramName loader (AllowRoles allowed probe)) r w
          = EvLoader rid :: rejection 403 "Forbidden: not owner")
  /\ (owns paramName loader r userID ->
      ~ has_allowed_role allowed r ->
      exists rid msg,
        emitted (EnforceOwnership paramName loader (AllowRoles allowed probe)) r w
          = EvLoader rid :: rejection 403 msg).
Proof.
  intros Hid.
  destruct (AllowRoles_probe_events allowed r) as (es & Hrun & Hserved & Hrefused).
  assert (Hpass : forall rid,
             Atoi (URLParam r paramName) = (rid, None) ->
             loader r rid = (userID, None) ->
             emitted (EnforceOwnership paramName loader (AllowRoles allowed probe)) r w
             = EvLoader rid :: es).
  { intros rid Ha Hl. unfold emitted.
    rewrite (EnforceOwnership_run _ _ _ _ _ _ Hid), Ha, Hl.
    destruct (decide (userID = userID)); [|contradiction].
    rewrite Hrun. cbn [fst]. rewrite add_events_add_event. apply trace_add_events. }
  assert (Hblock : ~ owns paramName loader r userID ->
             EvServed r ∉ emitted (EnforceOwnership paramName loader (AllowRoles allowed probe))
                            r w).
  { intros Hno. unfold emitted. rewrite (EnforceOwnership_run _ _ _ _ _ _ Hid).
    destruct (Atoi (URLParam r paramName)) as [rid [e|]] eqn:Ha.
    - cbn [fst]. rewrite trace_add_events. apply not_served_by_rejection.
    - destruct (loader r rid) as [ownerID [e|]] eqn:Hl.
      + cbn [fst]. rewrite trace_add_events, elem_of_cons. intros [H|H];
          [discriminate H|destruct (not_served_by_rejection _ _ _ H)].
      + destruct (decide (userID = ownerID)) as [->|Hne].
        * destruct Hno. exists rid. split; [exact Ha|exact Hl].
        * cbn [fst]. rewrite trace_add_events, elem_of_cons. intros [H|H];
            [discriminate H|destruct (not_served_by_rejection _ _ _ H)]. }
  split; [|split].
  - split.
    + intros Hs.
      destruct (owns_or_not paramName loader r userID) as [Ho|Hno];
        [|destruct (Hblock Hno Hs)].
      split; [exact Ho|]. destruct Ho as (rid & Ha & Hl).
      rewrite (Hpass rid Ha Hl), elem_of_cons in Hs.
      destruct Hs as [Hs|Hs]; [discriminate Hs|].
      apply Hserved. exact Hs.
    + intros [(rid & Ha & Hl) Hrole]. rewrite (Hpass rid Ha Hl), elem_of_cons. right.
      apply Hserved. exact Hrole.
  - intros rid ownerID Ha Hl Hne. unfold emitted.
    rewrite (EnforceOwnership_run _ _ _ _ _ _ Hid), Ha, Hl.
    destruct (decide (userID = ownerID)); [contradiction|].
    cbn [fst]. apply trace_add_events.
  - intros (rid & Ha & Hl) Hno. rewrite (Hpass rid Ha Hl).
    destruct (Hrefused Hno) as [msg ->]. exists rid, msg. reflexivity.
Qed.

Lemma delete_route_witness :
  let r := request_with (identity 2 "admin") "7" in
  EvServed r ∈ emitted (EnforceOwnership "id" book_owner (AllowRoles ["admin"] probe))
                 r empty_world.
Proof.
  intros r.
  destruct (delete_route_needs_owner_and_role "id" book_owner ["admin"] r empty_world 2
              eq_refl) as [Hiff _].
  apply Hiff. split.
  - exists 7. split; reflexivity.
  - exists "admin". repeat split; [discriminate|apply list_elem_of_singleton; reflexivity].
Defined.

(** X11.  [bookService.GetOwnerID] never reports owner 0: a lookup that
    fails, or that yields owner 0, is returned as 0 with an error.  So
    behind [EnforceOwnership] wired to it, a book the repository cannot
    name an owner for is answered 500 "Could not verify ownership", and
    the handler runs exactly when the repository names the user, with a
    non-zero id, as the owner. *)
Theorem EnforceOwnership_with_book_service
    (paramName : string) (repo : Z -> Z * error)
    (r : Request) (w : World) (userID rid : Z) :
  Value (Ctx r) UserIDKey = AInt userID ->
  Atoi (URLParam r paramName) = (rid, None) ->
  (forall bookID, snd (GetOwnerID repo bookID) = None -> fst (GetOwnerID repo bookID) <> 0)
  /\ (forall bookID, snd (GetOwnerID repo bookID) <> None -> fst (GetOwnerID repo bookID) = 0)
  /\ (EvServed r ∈ emitted (EnforceOwnership paramName (serviceLoader repo) probe) r w
      <-> repo rid = (userID, None) /\ userID <> 0)
  /\ (snd (repo rid) <> None \/ fst (repo rid) = 0 ->
      forall next : Handler,
        EnforceOwnership paramName (serviceLoader repo) next r w =
          (add_events (EvLoader rid :: rejection 500 "Could not verify ownership") w,
           Done tt)).
Proof.
  intros Hid Ha.
  assert (Hcases : forall bookID,
             GetOwnerID repo bookID =
               match repo bookID with
               | (_, Some e) => (0, Some e)
               | (o, None) => if o =? 0 then (0, Some "Book not found.") else (o, None)
               end) by reflexivity.
  split; [|split; [|split]].
  - intros bookID. rewrite Hcases. destruct (repo bookID) as [o [e|]]; [discriminate|].
    destruct (Z.eqb_spec o 0); [discriminate|]. intros _. exact n.
  - intros bookID. rewrite Hcases. destruct (repo bookID) as [o [e|]]; [reflexivity|].
    destruct (Z.eqb_spec o 0); [reflexivity|]. intros H. destruct (H eq_refl).
  - rewrite (EnforceOwnership_served _ _ _ _ _ Hid). unfold owns, serviceLoader.
    rewrite Ha. split.
    + intros (rid' & H & Hl). injection H as <-. rewrite Hcases in Hl.
      destruct (repo rid) as [o [e|]]; [discriminate|].
      destruct (Z.eqb_spec o 0); [discriminate|]. injection Hl as ->.
      split; [reflexivity|assumption].
    + intros [Hr Hne]. exists rid. split; [reflexivity|]. rewrite Hcases, Hr.
      destruct (Z.eqb_spec userID 0); [contradiction|reflexivity].
  - intros Hbad next. rewrite (EnforceOwnership_run _ _ _ _ _ _ Hid), Ha.
    unfold serviceLoader. rewrite Hcases.
    destruct (repo rid) as [o [e|]]; [reflexivity|].
    cbn [fst snd] in Hbad. destruct Hbad as [H|H]; [destruct (H eq_refl)|].
    subst o. reflexivity.
Qed.

Lemma EnforceOwnership_with_book_service_witness :
  let r := request_with (identity 2 "user") "8" in
  EnforceOwnership "id" (serviceLoader one_owner) probe r empty_world =
    (add_events (EvLoader 8 :: rejection 500 "Could not verify ownership") empty_world,
     Done tt).
Proof.
  intros r.
  destruct (EnforceOwnership_with_book_service "id" one_owner r empty_world 2 8
              eq_refl eq_refl) as (_ & _ & _ & Hmissing).
  apply Hmissing. left. discriminate.
Defined.

(** X17.  A route id that [strconv.Atoi] refuses (a missing parameter is
    the empty string, which it refuses with value 0): [EnforceOwnership]
    answers 400 "Invalid ID" without a lookup, while [AllowOwnerOrRole]
    drops the error and looks up the owner of the value [Atoi] returned
    with it. *)
Theorem route_id_not_a_number
    (paramName : string) (loader : OwnerLoader) (allowed : list string)
    (r : Request) (w : World) (userID v : Z) (e : string) :
  Value (Ctx r) UserIDKey = AInt userID ->
  Atoi (URLParam r paramName) = (v, Some e) ->
  (forall next : Handler,
      EnforceOwnership paramName loader next r w =
        (add_events (rejection 400 "Invalid ID") w, Done tt))
  /\ (exists es,
        emitted (AllowOwnerOrRole paramName loader UserRoleKey allowed probe) r w
        = EvLoader v :: es)
  /\ (URLParams r !! paramName = None -> v = 0).
Proof.
  intros Hid Ha. split; [|split].
  - intros next. rewrite (EnforceOwnership_run _ _ _ _ _ _ Hid), Ha. reflexivity.
  - unfold emitted. rewrite (AllowOwnerOrRole_run _ _ _ _ _ _ _ _ Hid). cbv zeta.
    rewrite Ha. cbn [fst].
    destruct (negb _ && negb _).
    + cbn [fst]. rewrite trace_add_events. eexists. reflexivity.
    + rewrite probe_run. cbn [fst].
      change (add_event (EvServed r) (add_event (EvLoader v) w))
        with (add_events [EvServed r] (add_event (EvLoader v) w)).
      rewrite add_events_add_event, trace_add_events. eexists. reflexivity.
  - intros Hmissing. unfold URLParam in Ha. rewrite Hmissing in Ha.
    cbn in Ha. congruence.
Qed.

Lemma route_id_not_a_number_witness :
  let r := request_with (identity 2 "user") "seven" in
  EnforceOwnership "id" book_owner probe r empty_world =
    (add_events (rejection 400 "Invalid ID") empty_world, Done tt).
Proof.
  intros r.
  destruct (route_id_not_a_number "id" book_owner ["admin"] r empty_world 2 0
              "invalid syntax" eq_refl eq_refl) as [H400 _].
  apply H400.
Defined.

End AuthorizationFacts.

(* ================================================================== *)
(** * Properties of the authentication stage                            *)
(* ================================================================== *)

Section AuthenticationFacts.
Import Go Http.

Lemma HasPrefix_app (p t : string) : HasPrefix (p +:+ t) p = true.
Proof.
  induction p as [|a p IH]; [reflexivity|].
  simpl. rewrite Ascii.eqb_refl. exact IH.
Qed.

Lemma drop_bytes_app (p t : string) : drop_bytes (String.length p) (p +:+ t) = t.
Proof. induction p as [|a p IH]; [destruct t; reflexivity|exact IH]. Qed.

Lemma TrimPrefix_app (p t : string) : TrimPrefix (p +:+ t) p = t.
Proof. unfold TrimPrefix. rewrite HasPrefix_app. apply drop_bytes_app. Qed.

Lemma ReplaceAll_space (s : string) : ReplaceAll s " " "" = delete_byte " " s.
Proof.
  unfold ReplaceAll.
  induction s as [|c s IH]; [reflexivity|].
  cbn [replace_from delete_byte HasPrefix String.length Nat.pred].
  destruct (Ascii.eqb " " c).
  - destruct s; exact IH.
  - rewrite IH. reflexivity.
Qed.

Lemma delete_byte_other (b c : ascii) (s : string) :
  c <> b -> delete_byte b (String c s) = String c (delete_byte b s).
Proof.
  intros Hne. cbn. destruct (Ascii.eqb_spec b c); [congruence|reflexivity].
Qed.

(** What [JWTAuth] does with claims that [ParseToken] has returned. *)
Lemma JWTAuth_run (jwt_Parse : string -> string -> Token * error)
    (secret : string) (next : Handler) (r : Request) (w : World)
    (claims : gmap string any) (idv rolev : any) :
  Header_Get r "Authorization" <> "" ->
  HasPrefix (Header_Get r "Authorization") "Bearer" = true ->
  ParseToken jwt_Parse (TrimPrefix (Header_Get r "Authorization") "Bearer") secret
    = (claims, None) ->
  claims !! "user_id" = Some idv ->
  claims !! "user_role" = Some rolev ->
  JWTAuth jwt_Parse secret next r w =
    match idv with
    | AFloat64 f =>
      match rolev with
      | AString role =>
        next (WithContext r (WithValue (WithValue (Ctx r) UserIDKey (AInt (int_of_float64 f)))
                                       UserRoleKey (AString role))) w
      | _ => (w, Panicked typeAssertionError)
      end
    | _ => (w, Panicked typeAssertionError)
    end.
Proof.
  intros Hne Hpre Hparse Hid Hrole. unfold JWTAuth.
  rewrite (bool_decide_eq_false_2 _ Hne), Hpre. cbn [orb negb].
  rewrite Hparse, Hid, Hrole.
  destruct idv; try reflexivity.
  destruct rolev; reflexivity.
Qed.

(** C3 (the code panics where the claim asks for a 401).  A token that
    [ParseToken] accepts, with both claims present, whose [user_id] is not
    a [float64] or whose [user_role] is not a string: [JWTAuth] panics at
    the type assertion and writes nothing. *)
Theorem JWTAuth_malformed_claim_panics
    (jwt_Parse : string -> string -> Token * error)
    (secret : string) (next : Handler) (r : Request) (w : World)
    (claims : gmap string any) (idv rolev : any) :
  Header_Get r "Authorization" <> "" ->
  HasPrefix (Header_Get r "Authorization") "Bearer" = true ->
  ParseToken jwt_Parse (TrimPrefix (Header_Get r "Authorization") "Bearer") secret
    = (claims, None) ->
  claims !! "user_id" = Some idv ->
  claims !! "user_role" = Some rolev ->
  (forall f, idv <> AFloat64 f) \/ (forall s, rolev <> AString s) ->
  JWTAuth jwt_Parse secret next r w = (w, Panicked typeAssertionError).
Proof.
  intros Hne Hpre Hparse Hid Hrole Hbad.
  rewrite (JWTAuth_run _ _ _ _ _ _ _ _ Hne Hpre Hparse Hid Hrole).
  destruct idv as [| | f | | |]; try reflexivity.
  destruct rolev as [| | | s | |]; try reflexivity.
  destruct Hbad as [H|H]; [destruct (H f eq_refl)|destruct (H s eq_refl)].
Qed.

Lemma JWTAuth_malformed_claim_witness :
  JWTAuth stub_Parse "k" probe (bearer_request "Bearer odd") empty_world
    = (empty_world, Panicked typeAssertionError).
Proof.
  apply (JWTAuth_malformed_claim_panics stub_Parse "k" probe (bearer_request "Bearer odd")
           empty_world
           (<["user_id" := AString "seven"]> {[ "user_role" := AString "user" ]})
           (AString "seven") (AString "user")).
  - discriminate.
  - reflexivity.
  - reflexivity.
  - reflexivity.
  - reflexivity.
  - left. intros f. discriminate.
Defined.

(** C10.  A header made of "Bearer" and, with nothing in between, a token
    that the library accepts (once its spaces are deleted) with a numeric
    [user_id] and a string [user_role]: [JWTAuth] hands the request, with
    both values attached to its context, to the downstream handler.  The
    stage tests and trims only the prefix "Bearer", and [ParseToken]
    deletes the bytes equal to the space and no others. *)
Theorem JWTAuth_accepts_Bearer_without_space
    (jwt_Parse : string -> string -> Token * error)
    (secret : string) (next : Handler) (r : Request) (w : World)
    (t : string) (token : Token) (claims : gmap string any)
    (f : spec_float) (role : string) :
  Header_Get r "Authorization" = "Bearer" +:+ t ->
  jwt_Parse (ReplaceAll t " " "") secret = (token, None) ->
  Valid token = true ->
  TokenClaims token = MapClaims claims ->
  claims !! "user_id" = Some (AFloat64 f) ->
  claims !! "user_role" = Some (AString role) ->
  JWTAuth jwt_Parse secret next r w =
    next (WithContext r ([(UserRoleKey, AString role);
                          (UserIDKey, AInt (int_of_float64 f))]
                         ++ Ctx r)) w
  /\ HasPrefix ("Bearer" +:+ t) "Bearer" = true
  /\ TrimPrefix ("Bearer" +:+ t) "Bearer" = t
  /\ (forall s, ReplaceAll s " " "" = delete_byte " " s)
  /\ (forall c s, c <> " "%char ->
        delete_byte " " (String c s) = String c (delete_byte " " s)).
Proof.
  intros Hauth Hlib Hvalid Hclaims Hid Hrole.
  split; [|split; [apply HasPrefix_app|split; [apply TrimPrefix_app|split]]].
  - rewrite (JWTAuth_run jwt_Parse secret next r w claims (AFloat64 f) (AString role)).
    + reflexivity.
    + rewrite Hauth. discriminate.
    + rewrite Hauth. apply HasPrefix_app.
    + rewrite Hauth, TrimPrefix_app. unfold ParseToken.
      rewrite Hlib, Hvalid, Hclaims. reflexivity.
    + exact Hid.
    + exact Hrole.
  - apply ReplaceAll_space.
  - intros c s Hc. apply delete_byte_other. exact Hc.
Qed.

Lemma JWTAuth_accepts_Bearer_without_space_witness :
  JWTAuth stub_Parse "k" probe (bearer_request "Bearergood") empty_world =
    probe (WithContext (bearer_request "Bearergood")
             [(UserRoleKey, AString "user"); (UserIDKey, AInt 7)]) empty_world.
Proof.
  destruct (JWTAuth_accepts_Bearer_without_space stub_Parse "k" probe
              (bearer_request "Bearergood") empty_world "good"
              {| Valid := true;
                 TokenClaims := MapClaims (<["user_id" := AFloat64 (S754_finite false 7 0)]>
                                             {[ "user_role" := AString "user" ]}) |}
              (<["user_id" := AFloat64 (S754_finite false 7 0)]>
                 {[ "user_role" := AString "user" ]})
              (S754_finite false 7 0) "user"
              eq_refl eq_refl eq_refl eq_refl eq_refl eq_refl) as [Hrun _].
  exact Hrun.
Defined.

(** [JWTAuth] by what the library returns. *)
Lemma JWTAuth_cases (jwt_Parse : string -> string -> Token * error)
    (secret : string) (next : Handler) (r : Request) (w : World) :
  let auth := Header_Get r "Authorization" in
  let refuse msg := (add_events (rejection 401 msg) w, Done tt) in
  JWTAuth jwt_Parse secret next r w =
    if negb (HasPrefix auth "Bearer") then refuse "Unauthorized"
    else
      match jwt_Parse (ReplaceAll (TrimPrefix auth "Bearer") " " "") secret with
      | (_, Some _) => refuse "Invalid or expired token."
      | (token, None) =>
        if negb (Valid token) then refuse "Missing user_id in token."
        else
          match TokenClaims token with
          | OtherClaims => refuse "Invalid or expired token."
          | MapClaims claims =>
            match claims !! "user_id" with
            | None => refuse "Missing user_id in token."
            | Some idv =>
              match claims !! "user_role" with
              | None => refuse "Missing user_role in token."
              | Some rolev =>
                match idv, rolev with
                | AFloat64 f, AString role => next (authenticated r f role) w
                | _, _ => (w, Panicked typeAssertionError)
                end
              end
            end
          end
      end.
Proof.
  cbv zeta. unfold JWTAuth.
  destruct (HasPrefix (Header_Get r "Authorization") "Bearer") eqn:Hpre; cbn [negb].
  2:{ rewrite orb_true_r. apply WriteSafeError_run. }
  assert (Hne : Header_Get r "Authorization" <> "").
  { intros E. rewrite E in Hpre. discriminate Hpre. }
  rewrite (bool_decide_eq_false_2 _ Hne). cbn [orb].
  unfold ParseToken.
  destruct (jwt_Parse _ secret) as [token [e|]].
  { cbn [orb]. rewrite bool_decide_eq_true_2 by discriminate. cbn [orb].
    apply WriteSafeError_run. }
  rewrite bool_decide_eq_false_2 by (intros H; apply H; reflexivity). cbn [orb].
  destruct (Valid token); cbn [negb].
  2:{ rewrite lookup_empty. apply WriteSafeError_run. }
  destruct (TokenClaims token) as [claims|]; [|apply WriteSafeError_run].
  destruct (claims !! "user_id") as [idv|]; [|apply WriteSafeError_run].
  destruct (claims !! "user_role") as [rolev|]; [|apply WriteSafeError_run].
  destruct idv; try reflexivity.
  destruct rolev; reflexivity.
Qed.

(** X12.  Behind [JWTAuth] the downstream handler runs only on a request
    whose header starts with "Bearer" and whose token the library accepts
    with a numeric [user_id] and a string [user_role], and then on that
    request with the identity attached.  Every other request ends in the
    stage: with a 401 response, or with the panic of a failed type
    assertion, whatever the downstream handler is. *)
Theorem JWTAuth_serves_only_accepted
    (jwt_Parse : string -> string -> Token * error)
    (secret : string) (r : Request) (w : World) :
  (forall r', EvServed r' ∈ emitted (JWTAuth jwt_Parse secret probe) r w
              <-> exists f role, token_accepted jwt_Parse secret r f role
                                 /\ r' = authenticated r f role)
  /\ (forall next : Handler,
        ~ (exists f role, token_accepted jwt_Parse secret r f role) ->
        (exists msg, JWTAuth jwt_Parse secret next r w
                     = (add_events (rejection 401 msg) w, Done tt))
        \/ JWTAuth jwt_Parse secret next r w = (w, Panicked typeAssertionError)).
Proof.
  assert (Hrefused : forall msg r',
             EvServed r' ∈ drop (length (w_trace w))
                            (w_trace (fst (add_events (rejection 401 msg) w,
                                           @Done unit tt)))
             -> False).
  { intros msg r' H. cbn [fst] in H. rewrite trace_add_events in H.
    unfold rejection in H. rewrite !elem_of_cons, elem_of_nil in H.
    repeat destruct H as [H|H]; try discriminate H. contradiction. }
  assert (Hpanic : forall r', EvServed r' ∈ drop (length (w_trace w)) (w_trace w) -> False).
  { intros r' H. rewrite drop_all in H. apply elem_of_nil in H. exact H. }
  unfold token_accepted. split.
  - intros r'. unfold emitted. rewrite JWTAuth_cases. cbv zeta.
    destruct (HasPrefix (Header_Get r "Authorization") "Bearer"); cbn [negb];
      [|split; [intros H; destruct (Hrefused _ _ H)
               |intros (f & role & (H & _) & _); discriminate H]].
    destruct (jwt_Parse _ secret) as [token [e|]];
      [split; [intros H; destruct (Hrefused _ _ H)
              |intros (f & role & (_ & tk & cl & H & _) & _); discriminate H]|].
    destruct (Valid token) eqn:Hvalid; cbn [negb];
      [|split; [intros H; destruct (Hrefused _ _ H)
               |intros (f & role & (_ & tk & cl & H & Hv & _) & _);
                injection H as <-; congruence]].
    destruct (TokenClaims token) as [claims|] eqn:Hclaims;
      [|split; [intros H; destruct (Hrefused _ _ H)
               |intros (f & role & (_ & tk & cl & H & _ & Hc & _) & _);
                injection H as <-; congruence]].
    destruct (claims !! "user_id") as [idv|] eqn:Hid;
      [|split; [intros H; destruct (Hrefused _ _ H)
               |intros (f & role & (_ & tk & cl & H & _ & Hc & Hi & _) & _);
                injection H as <-; congruence]].
    destruct (claims !! "user_role") as [rolev|] eqn:Hrole;
      [|split; [intros H; destruct (Hrefused _ _ H)
               |intros (f & role & (_ & tk & cl & H & _ & Hc & _ & Hr) & _);
                injection H as <-; congruence]].
    destruct idv as [| | f | | |];
      try (split; [intros H; destruct (Hpanic _ H)
                  |intros (f' & role & (_ & tk & cl & H & _ & Hc & Hi & _) & _);
                   injection H as <-; congruence]).
    destruct rolev as [| | | role | |];
      try (split; [intros H; destruct (Hpanic _ H)
                  |intros (f' & role' & (_ & tk & cl & H & _ & Hc & _ & Hr) & _);
                   injection H as <-; congruence]).
    rewrite probe_run. cbn [fst]. rewrite trace_add_event, list_elem_of_singleton. split.
    + intros H. injection H as ->. exists f, role. split; [|reflexivity].
      split; [reflexivity|]. exists token, claims. repeat split; assumption.
    + intros (f' & role' & (_ & tk & cl & H & _ & Hc & Hi & Hr) & ->).
      injection H as <-. assert (cl = claims) by congruence. subst cl.
      assert (f' = f) by congruence. assert (role' = role) by congruence.
      subst. reflexivity.
  - intros next Hno. rewrite JWTAuth_cases. cbv zeta.
    destruct (HasPrefix (Header_Get r "Authorization") "Bearer") eqn:Hpre; cbn [negb];
      [|left; eexists; reflexivity].
    destruct (jwt_Parse _ secret) as [token [e|]] eqn:Hlib; [left; eexists; reflexivity|].
    destruct (Valid token) eqn:Hvalid; cbn [negb]; [|left; eexists; reflexivity].
    destruct (TokenClaims token) as [claims|] eqn:Hclaims; [|left; eexists; reflexivity].
    destruct (claims !! "user_id") as [idv|] eqn:Hid; [|left; eexists; reflexivity].
    destruct (claims !! "user_role") as [rolev|] eqn:Hrole; [|left; eexists; reflexivity].
    destruct idv as [| | f | | |]; try (right; reflexivity).
    destruct rolev as [| | | role | |]; try (right; reflexivity).
    destruct Hno. exists f, role. split; [reflexivity|].
    exists token, claims. repeat split; assumption.
Qed.

Lemma delete_byte_idempotent (b : ascii) (s : string) :
  delete_byte b (delete_byte b s) = delete_byte b s.
Proof.
  induction s as [|c s IH]; [reflexivity|].
  cbn [delete_byte]. destruct (Ascii.eqb b c) eqn:E; [exact IH|].
  cbn [delete_byte]. rewrite E, IH. reflexivity.
Qed.

(** X13.  [ParseToken] does not see spaces: two token strings that are
    equal once their space bytes are deleted get the same result, whatever
    the library does; in particular a token and the token without its
    spaces. *)
Theorem ParseToken_ignores_spaces
    (jwt_Parse : string -> string -> Token * error) (secret t1 t2 : string) :
  delete_byte " " t1 = delete_byte " " t2 ->
  ParseToken jwt_Parse t1 secret = ParseToken jwt_Parse t2 secret
  /\ ParseToken jwt_Parse (delete_byte " " t1) secret = ParseToken jwt_Parse t1 secret.
Proof.
  intros H. unfold ParseToken. rewrite !ReplaceAll_space, delete_byte_idempotent, H.
  split; reflexivity.
Qed.

Lemma ParseToken_ignores_spaces_witness :
  ParseToken stub_Parse " g o od " "k" = ParseToken stub_Parse "good" "k".
Proof.
  destruct (ParseToken_ignores_spaces stub_Parse "k" " g o od " "good" eq_refl) as [H _].
  exact H.
Defined.

Lemma JWTAuth_accepted (jwt_Parse : string -> string -> Token * error)
    (secret : string) (next : Handler) (r : Request) (w : World)
    (f : spec_float) (role : string) :
  token_accepted jwt_Parse secret r f role ->
  JWTAuth jwt_Parse secret next r w = next (authenticated r f role) w.
Proof.
  intros (Hpre & token & claims & Hlib & Hvalid & Hclaims & Hid & Hrole).
  rewrite JWTAuth_cases. cbv zeta.
  rewrite Hpre, Hlib, Hvalid, Hclaims, Hid, Hrole. reflexivity.
Qed.

Lemma not_401_in_rejection (code : Z) (msg : string) :
  code <> 401 -> EvWriteHeader 401 ∉ rejection code msg.
Proof.
  intros Hc. unfold rejection. rewrite !elem_of_cons, elem_of_nil. intros H.
  repeat destruct H as [H|H]; try discriminate H; try contradiction.
  injection H as H. congruence.
Qed.

(** X14.  The identity [JWTAuth] attaches is the one the stages behind it
    read, whatever the context of the incoming request held: for an
    accepted request, [AllowOwnerOrRole] behind [JWTAuth] does not panic,
    [EnforceOwnership] behind [JWTAuth] never answers 401, and
    [AllowRoles] behind [JWTAuth] decides on the role of the token. *)
Theorem JWTAuth_identity_reaches_authorization
    (jwt_Parse : string -> string -> Token * error)
    (secret : string) (r : Request) (w : World) (f : spec_float) (role : string) :
  token_accepted jwt_Parse secret r f role ->
  Value (Ctx (authenticated r f role)) UserIDKey = AInt (int_of_float64 f)
  /\ Value (Ctx (authenticated r f role)) UserRoleKey = AString role
  /\ (forall paramName loader allowed,
        exists w',
          JWTAuth jwt_Parse secret
            (AllowOwnerOrRole paramName loader UserRoleKey allowed probe) r w
          = (w', Done tt))
  /\ (forall paramName loader,
        EvWriteHeader 401 ∉
          emitted (JWTAuth jwt_Parse secret (EnforceOwnership paramName loader probe)) r w)
  /\ (forall allowed,
        EvServed (authenticated r f role) ∈
          emitted (JWTAuth jwt_Parse secret (AllowRoles allowed probe)) r w
        <-> role <> "" /\ role ∈ allowed).
Proof.
  intros Hacc.
  assert (Hid : Value (Ctx (authenticated r f role)) UserIDKey = AInt (int_of_float64 f))
    by reflexivity.
  assert (Hrole : Value (Ctx (authenticated r f role)) UserRoleKey = AString role)
    by reflexivity.
  split; [exact Hid|]. split; [exact Hrole|]. split; [|split].
  - intros paramName loader allowed. rewrite (JWTAuth_accepted _ _ _ _ _ _ _ Hacc).
    rewrite (AllowOwnerOrRole_run _ _ _ _ _ _ _ _ Hid). cbv zeta.
    destruct (negb _ && negb _); [eexists; reflexivity|].
    rewrite probe_run. eexists. reflexivity.
  - intros paramName loader. unfold emitted.
    rewrite (JWTAuth_accepted _ _ _ _ _ _ _ Hacc).
    rewrite (EnforceOwnership_run _ _ _ _ _ _ Hid).
    destruct (Atoi _) as [rid [e|]].
    + cbn [fst]. rewrite trace_add_events. apply not_401_in_rejection. discriminate.
    + destruct (loader _ rid) as [ownerID [e|]].
      * cbn [fst]. rewrite trace_add_events, elem_of_cons. intros [H|H];
          [discriminate H|]. revert H. apply not_401_in_rejection. discriminate.
      * destruct (decide (int_of_float64 f = ownerID)).
        -- rewrite probe_run. cbn [fst].
           change (add_event (EvServed ?x) (add_event ?e w))
             with (add_events [EvServed x] (add_event e w)).
           rewrite add_events_add_event, trace_add_events, !elem_of_cons, elem_of_nil.
           intros [H|[H|H]]; try discriminate H. exact H.
        -- cbn [fst]. rewrite trace_add_events, elem_of_cons. intros [H|H];
             [discriminate H|]. revert H. apply not_401_in_rejection. discriminate.
  - intros allowed.
    assert (Hem : emitted (JWTAuth jwt_Parse secret (AllowRoles allowed probe)) r w
                  = emitted (AllowRoles allowed probe) (authenticated r f role) w).
    { unfold emitted. rewrite (JWTAuth_accepted _ _ _ _ _ _ _ Hacc). reflexivity. }
    rewrite Hem, AllowRoles_served. unfold has_allowed_role. rewrite Hrole. split.
    + intros (role' & H & Hne & Hin). injection H as <-. split; assumption.
    + intros [Hne Hin]. exists role. repeat split; assumption.
Qed.

Lemma JWTAuth_identity_witness :
  exists w',
    JWTAuth stub_Parse "k" (AllowOwnerOrRole "id" book_owner UserRoleKey ["admin"] probe)
      (bearer_request "Bearer good") empty_world
    = (w', Done tt).
Proof.
  assert (Hacc : token_accepted stub_Parse "k" (bearer_request "Bearer good")
                   (S754_finite false 7 0) "user").
  { split; [reflexivity|].
    exists {| Valid := true;
              TokenClaims := MapClaims (<["user_id" := AFloat64 (S754_finite false 7 0)]>
                                          {[ "user_role" := AString "user" ]}) |},
           (<["user_id" := AFloat64 (S754_finite false 7 0)]>
              {[ "user_role" := AString "user" ]}).
    repeat split; reflexivity. }
  destruct (JWTAuth_identity_reaches_authorization stub_Parse "k"
              (bearer_request "Bearer good") empty_world (S754_finite false 7 0) "user" Hacc)
    as (_ & _ & Hnopanic & _).
  apply Hnopanic.
Defined.

End AuthenticationFacts.

(* ================================================================== *)
(** * Properties of the middleware composer                             *)
(* ================================================================== *)

Section ComposerFacts.
Import Go Http.

Lemma applyMiddleware_loop_take (middlewares : list (Handler -> Handler)) (n : nat) :
  forall h : Handler,
    (n <= length middlewares)%nat ->
    applyMiddleware_loop middlewares n h
      = foldr (fun m inner => m inner) h (take n middlewares).
Proof.
  induction n as [|i IH]; intros h Hn.
  - rewrite take_0. reflexivity.
  - cbn [applyMiddleware_loop].
    destruct (middlewares !! i) as [m|] eqn:Hm.
    + rewrite IH by lia.
      rewrite (take_S_r _ _ _ Hm), foldr_app. reflexivity.
    + apply lookup_ge_None in Hm. lia.
Qed.

Lemma applyMiddleware_foldr (h : Handler) (middlewares : list (Handler -> Handler)) :
  applyMiddleware h middlewares = foldr (fun m inner => m inner) h middlewares.
Proof.
  unfold applyMiddleware. rewrite applyMiddleware_loop_take by lia.
  rewrite take_ge by lia. reflexivity.
Qed.

Lemma add_events_nil (w : World) : add_events [] w = w.
Proof. destruct w. unfold add_events. cbn. rewrite app_nil_r. reflexivity. Qed.

Lemma add_events_app (es1 es2 : list event) (w : World) :
  add_events es2 (add_events es1 w) = add_events (es1 ++ es2) w.
Proof. unfold add_events. cbn. rewrite app_assoc. reflexivity. Qed.

Lemma probeStages_run (labels : list string) (h : Handler) (r : Request) :
  forall w : World,
    applyMiddleware h (map probeStage labels) r w =
      match h r (add_events (way_in labels) w) with
      | (w', Done _) => (add_events (way_out labels) w', Done tt)
      | (w', Panicked v) => (w', Panicked v)
      end.
Proof.
  rewrite applyMiddleware_foldr.
  induction labels as [|l labels IH]; intros w.
  - cbn [map foldr way_in way_out rev]. rewrite add_events_nil.
    destruct (h r w) as [w' [[]|v]]; [rewrite add_events_nil|]; reflexivity.
  - cbn [map foldr]. unfold probeStage at 1. unfold bind, emit.
    rewrite IH.
    change (add_event (EvProbe ("in " +:+ l)) w)
      with (add_events [EvProbe ("in " +:+ l)] w).
    rewrite add_events_app.
    change ([EvProbe ("in " +:+ l)] ++ way_in labels) with (way_in (l :: labels)).
    destruct (h r (add_events (way_in (l :: labels)) w)) as [w' [[]|v]]; [|reflexivity].
    change (add_event (EvProbe ("out " +:+ l)) (add_events (way_out labels) w'))
      with (add_events [EvProbe ("out " +:+ l)] (add_events (way_out labels) w')).
    rewrite add_events_app. unfold way_out. cbn [rev]. rewrite map_app. reflexivity.
Qed.

(** C8.  [Apply h] is request logging around panic recovery around CORS
    around user-agent logging around [h].  [applyMiddleware] applied to a
    list of stages makes the first stage the outermost one: with no stage
    it is the handler itself, and a stage put in front wraps the
    composition of the others.  For stages that only mark their way in and
    out, the marks on the way in appear in the order of the list, before
    the handler runs, and the marks on the way out in the reverse order,
    after it has returned. *)
Theorem Apply_and_applyMiddleware_order :
  (forall h : Handler,
      Apply h = requestLoggingMiddleware
                  (recoveryMiddleware (corsMiddleware (userAgentLogMiddleware h))))
  /\ (forall h : Handler, applyMiddleware h [] = h)
  /\ (forall (h : Handler) (m : Handler -> Handler) (ms : list (Handler -> Handler)),
        applyMiddleware h (m :: ms) = m (applyMiddleware h ms))
  /\ (forall (labels : list string) (h : Handler) (r : Request) (w : World),
        applyMiddleware h (map probeStage labels) r w =
          match h r (add_events (way_in labels) w) with
          | (w', Done _) => (add_events (way_out labels) w', Done tt)
          | (w', Panicked v) => (w', Panicked v)
          end)
  /\ (forall (r : Request) (w : World),
        emitted (Apply probe) r w =
          [EvLog "Started HTTP Request %s %s" [AString (Method r); AString (URLPath r)];
           EvSetHeader "Access-Control-Allow-Origin" "*";
           EvSetHeader "Access-Control-Allow-Methods" "GET, POST, PUT, DELETE, OPTIONS";
           EvSetHeader "Access-Control-Allow-Headers" "Content-Type"]
          ++ (if bool_decide (Method r = "OPTIONS")
              then [EvWriteHeader 204]
              else [EvLog "User-Agent: %s" [AString (Header_Get r "User-Agent")];
                    EvServed r])
          ++ [EvLog ("Completed %s %s in %v " +:+ newline +:+ newline)
                [AString (Method r); AString (URLPath r);
                 AInt (saturate64 (w_clock w - w_clock w))]]).
Proof.
  split; [|split; [|split; [|split]]].
  - intros h. reflexivity.
  - intros h. reflexivity.
  - intros h m ms. rewrite !applyMiddleware_foldr. reflexivity.
  - intros labels h r w. apply probeStages_run.
  - intros r w. unfold emitted.
    change (Apply probe) with
      (requestLoggingMiddleware
         (recoveryMiddleware (corsMiddleware (userAgentLogMiddleware probe)))).
    unfold requestLoggingMiddleware, recoveryMiddleware, corsMiddleware,
      userAgentLogMiddleware, probe, bind, emit, Now, Since, add_event.
    cbn [fst snd w_trace w_visitors w_clock].
    destruct (bool_decide (Method r = "OPTIONS"));
      cbn [fst snd w_trace w_visitors w_clock];
      rewrite <- !app_assoc; rewrite drop_app_length; reflexivity.
Qed.

(** X15.  [applyMiddleware] composes: wrapping with a list followed by
    another is wrapping with the second list first and then with the
    first.  A stage that does not call its [next] cuts off everything
    listed after it, the handler included. *)
Theorem applyMiddleware_composes
    (h : Handler) (ms1 ms2 : list (Handler -> Handler)) :
  applyMiddleware h (ms1 ++ ms2) = applyMiddleware (applyMiddleware h ms2) ms1
  /\ (forall k : Handler,
        applyMiddleware h (ms1 ++ (fun _ => k) :: ms2) = applyMiddleware k ms1).
Proof.
  split.
  - rewrite !applyMiddleware_foldr, foldr_app. reflexivity.
  - intros k. rewrite !applyMiddleware_foldr, foldr_app. reflexivity.
Qed.

Lemma Apply_run (h : Handler) (r : Request) (w : World) :
  Apply h r w =
    if bool_decide (Method r = "OPTIONS")
    then (add_events
            [EvLog "Started HTTP Request %s %s" [AString (Method r); AString (URLPath r)];
             EvSetHeader "Access-Control-Allow-Origin" "*";
             EvSetHeader "Access-Control-Allow-Methods" "GET, POST, PUT, DELETE, OPTIONS";
             EvSetHeader "Access-Control-Allow-Headers" "Content-Type";
             EvWriteHeader 204;
             completed_line r (saturate64 (w_clock w - w_clock w))] w, Done tt)
    else
      match h r (add_events (before_handler r) w) with
      | (w2, Done _) =>
        (add_event (completed_line r (saturate64 (w_clock w2 - w_clock w))) w2, Done tt)
      | (w2, Panicked v) =>
        (add_events (EvLog "Recovered from panic: %v" [v]
                       :: rejection 500 "Internal Server Error"
                       ++ [completed_line r (saturate64 (w_clock w2 - w_clock w))]) w2,
         Done tt)
      end.
Proof.
  change (Apply h) with
    (requestLoggingMiddleware
       (recoveryMiddleware (corsMiddleware (userAgentLogMiddleware h)))).
  unfold requestLoggingMiddleware, recoveryMiddleware, corsMiddleware,
    userAgentLogMiddleware, bind, emit, Now, Since.
  cbn [fst snd].
  destruct (bool_decide (Method r = "OPTIONS")).
  - unfold add_event, add_events. cbn [w_trace w_visitors w_clock].
    rewrite <- !app_assoc. reflexivity.
  - assert (Hpre : add_event (EvLog "User-Agent: %s" [AString (Header_Get r "User-Agent")])
                     (add_event (EvSetHeader "Access-Control-Allow-Headers" "Content-Type")
                        (add_event (EvSetHeader "Access-Control-Allow-Methods"
                                      "GET, POST, PUT, DELETE, OPTIONS")
                           (add_event (EvSetHeader "Access-Control-Allow-Origin" "*")
                              (add_event (EvLog "Started HTTP Request %s %s"
                                            [AString (Method r); AString (URLPath r)]) w))))
                   = add_events (before_handler r) w).
    { unfold add_event, add_events, before_handler. cbn [w_trace w_visitors w_clock].
      rewrite <- !app_assoc. reflexivity. }
    rewrite Hpre.
    destruct (h r (add_events (before_handler r) w)) as [w2 [[]|v]].
    + reflexivity.
    + rewrite WriteSafeError_run. cbn [fst snd].
      unfold add_event, add_events, rejection, completed_line.
      cbn [w_trace w_visitors w_clock]. rewrite <- !app_assoc. reflexivity.
Qed.

(** X16.  No panic gets out of [Apply]: whatever the handler does, the
    call returns.  When the handler panics on a request that is not a
    preflight, the trace ends with the log line that carries the panic
    value, the 500 response with the fixed text "Internal Server Error"
    (the value is not in it) and the closing log line of the request
    logger.  On an OPTIONS request the handler does not run at all. *)
Theorem Apply_contains_panics (h : Handler) (r : Request) (w : World) :
  snd (Apply h r w) = Done tt
  /\ (Method r <> "OPTIONS" ->
      forall w2 v,
        h r (add_events (before_handler r) w) = (w2, Panicked v) ->
        Apply h r w =
          (add_events (EvLog "Recovered from panic: %v" [v]
                         :: rejection 500 "Internal Server Error"
                         ++ [completed_line r (saturate64 (w_clock w2 - w_clock w))]) w2,
           Done tt))
  /\ (Method r = "OPTIONS" -> forall h' : Handler, Apply h r w = Apply h' r w).
Proof.
  split; [|split].
  - rewrite Apply_run. destruct (bool_decide (Method r = "OPTIONS")); [reflexivity|].
    destruct (h r (add_events (before_handler r) w)) as [w2 [[]|v]]; reflexivity.
  - intros Hm w2 v Hh. rewrite Apply_run, (bool_decide_eq_false_2 _ Hm), Hh. reflexivity.
  - intros Hm h'. rewrite !Apply_run, (bool_decide_eq_true_2 _ Hm). reflexivity.
Qed.

Lemma Apply_contains_panics_witness :
  let r := request_with [] "7" in
  Apply failing_handler r empty_world =
    (add_events (EvLog "Recovered from panic: %v" [AError "nil map write"]
                   :: rejection 500 "Internal Server Error"
                   ++ [completed_line r 0])
       (add_events (before_handler r) empty_world),
     Done tt).
Proof.
  intros r.
  destruct (Apply_contains_panics failing_handler r empty_world) as (_ & Hpanic & _).
  apply (Hpanic ltac:(discriminate) (add_events (before_handler r) empty_world)
           (AError "nil map write") eq_refl).
Defined.

End ComposerFacts.
